(** * AutoRSS Lite (main.py): a shallow embedding and its verified properties

    The development follows the layout of [main.py]:
    - Python strings and the few [str] methods the program uses;
    - a backtracking matcher for the regular expressions of the program
      and [re.sub];
    - the utilities [normalize_ws], [strip_tags] and the sanitizer of
      [generate_body_html];
    - the effectful pipeline ([load_config], [fetch_latest_item],
      [generate_body_html], [render_site], the lite lock and [main]) over
      an explicit file system and event trace;
    - the theorems. *)

From Stdlib Require Import ZArith List Bool Lia String Ascii DecimalString.
From stdpp Require Import base option list gmap.

Local Open Scope Z_scope.
Set Warnings "-register-all".

(* ===================================================================== *)
(** ** Python strings *)
(* ===================================================================== *)

(** A Python [str] is a sequence of Unicode code points. *)
Abbreviation pstring := (list Z).

(** ASCII literal of the source as a Python string. *)
Definition py (s : string) : pstring :=
  map (fun a => Z.of_N (N_of_ascii a)) (list_ascii_of_string s).

Definition in_range (lo hi c : Z) : bool := (lo <=? c) && (c <=? hi).

(** [str.isspace] on one code point; the same predicate decides [\s] in a
    [str] pattern and what [str.strip()] removes. *)
Definition is_space (c : Z) : bool :=
  in_range 9 13 c || in_range 28 32 c || (c =? 133) || (c =? 160)
  || (c =? 5760) || in_range 8192 8202 c || (c =? 8232) || (c =? 8233)
  || (c =? 8239) || (c =? 8287) || (c =? 12288).

Fixpoint lstrip (s : pstring) : pstring :=
  match s with
  | c :: t => if is_space c then lstrip t else s
  | [] => []
  end.

Definition rstrip (s : pstring) : pstring := rev (lstrip (rev s)).

(** [s.strip()] *)
Definition py_strip (s : pstring) : pstring := rstrip (lstrip s).

Fixpoint lstrip_char (x : Z) (s : pstring) : pstring :=
  match s with
  | c :: t => if c =? x then lstrip_char x t else s
  | [] => []
  end.

(** [s.rstrip("/")] *)
Definition rstrip_char (x : Z) (s : pstring) : pstring :=
  rev (lstrip_char x (rev s)).

Fixpoint startswith (p s : pstring) : bool :=
  match p, s with
  | [], _ => true
  | a :: p', b :: s' => (a =? b) && startswith p' s'
  | _ :: _, [] => false
  end.

Definition endswith (p s : pstring) : bool := startswith (rev p) (rev s).

(** [sep.join(parts)] *)
Fixpoint join (sep : pstring) (parts : list pstring) : pstring :=
  match parts with
  | [] => []
  | [p] => p
  | p :: rest => p ++ sep ++ join sep rest
  end.

(** Simple lower-case mapping of one code point, as the regex engine applies
    it under IGNORECASE.  It is exact on every code point whose image is an
    ASCII letter, U+0131 or U+017F; the patterns below compare the result
    with nothing else. *)
Definition sre_lower (c : Z) : Z :=
  if in_range 65 90 c then c + 32
  else if c =? 304 then 105        (* U+0130 -> i *)
  else if c =? 8490 then 107       (* U+212A KELVIN SIGN -> k *)
  else c.

(** [str.lower()] on the code points a tag name can hold (the class
    [[a-z0-9]] under IGNORECASE); U+0130 lowers to two code points. *)
Definition py_lower_char (c : Z) : pstring :=
  if in_range 65 90 c then [c + 32]
  else if c =? 304 then [105; 775]
  else if c =? 8490 then [107]
  else [c].

Definition py_lower (s : pstring) : pstring := flat_map py_lower_char s.

(* ===================================================================== *)
(** ** Regular expressions: a backtracking matcher *)
(* ===================================================================== *)

Module Re.

(** Compiled patterns.  A one-character item is a predicate on the code
    point, the way the compiler emits LITERAL, IN and ANY under the flags
    of the pattern. *)
Inductive regex :=
| Eps
| Chr (p : Z -> bool)
| Seq (r1 r2 : regex)
| Alt (r1 r2 : regex)
| Star (greedy : bool) (r : regex)
| Group (n : nat) (r : regex)
| Backref (n : nat).

Definition groups := list (nat * pstring).

Fixpoint group (n : nat) (g : groups) : option pstring :=
  match g with
  | [] => None
  | (m, t) :: g' => if Nat.eqb n m then Some t else group n g'
  end.

(** A back-reference under IGNORECASE compares the lower-cased code points. *)
Fixpoint backref_ci (t s : pstring) : option pstring :=
  match t, s with
  | [], _ => Some s
  | a :: t', b :: s' =>
      if sre_lower a =? sre_lower b then backref_ci t' s' else None
  | _ :: _, [] => None
  end.

Definition mresult := option (pstring * groups).

Definition orelse (a b : mresult) : mresult :=
  match a with Some x => Some x | None => b end.

Definition cont := pstring -> groups -> mresult.

(** The loop of a repeat [r*] (greedy) or [r*?] (lazy) whose body is matched
    by [body]; an iteration has to consume input, and [fuel] bounds the
    number of iterations by the length of the text. *)
Fixpoint star_loop (greedy : bool) (body : pstring -> groups -> cont -> mresult)
    (k : cont) (fuel : nat) (s : pstring) (g : groups) {struct fuel}
    : mresult :=
  match fuel with
  | O => k s g
  | S fuel' =>
      let again :=
        body s g (fun s1 g1 =>
          if (length s1 <? length s)%nat
          then star_loop greedy body k fuel' s1 g1 else None) in
      if greedy then orelse again (k s g) else orelse (k s g) again
  end.

(** [rmatch r s g k]: match [r] at the head of [s] with the groups [g] set
    so far, then run the continuation [k] on what is left; alternatives are
    tried in the priority order of a backtracking engine. *)
Fixpoint rmatch (r : regex) (s : pstring) (g : groups) (k : cont)
    {struct r} : mresult :=
  match r with
  | Eps => k s g
  | Chr p =>
      match s with
      | c :: s' => if p c then k s' g else None
      | [] => None
      end
  | Seq r1 r2 => rmatch r1 s g (fun s1 g1 => rmatch r2 s1 g1 k)
  | Alt r1 r2 => orelse (rmatch r1 s g k) (rmatch r2 s g k)
  | Star greedy r1 => star_loop greedy (rmatch r1) k (length s) s g
  | Group n r1 =>
      rmatch r1 s g (fun s1 g1 =>
        k s1 ((n, take (length s - length s1) s) :: g1))
  | Backref n =>
      match group n g with
      | Some t =>
          match backref_ci t s with
          | Some s' => k s' g
          | None => None
          end
      | None => None
      end
  end.

(** [pattern.match(s)]: the matched text (group 0) and the groups. *)
Definition match_at (r : regex) (s : pstring) : option (pstring * groups) :=
  match rmatch r s [] (fun s' g => Some (s', g)) with
  | Some (s', g) => Some (take (length s - length s') s, g)
  | None => None
  end.

(** [re.sub(r, repl, s)] with a callable [repl]: leftmost non-overlapping
    matches, scanning left to right.  [skip] counts the characters of the
    current match still to be passed over.  None of the program's patterns
    matches the empty string; an empty match is replaced and the scan moves
    on by one character. *)
Fixpoint sub_from (r : regex) (repl : pstring -> groups -> pstring)
    (skip : nat) (s : pstring) : pstring :=
  match s with
  | [] => []
  | c :: t =>
      match skip with
      | S n => sub_from r repl n t
      | O =>
          match match_at r s with
          | Some ([], g) => repl [] g ++ c :: sub_from r repl 0 t
          | Some (m, g) => repl m g ++ sub_from r repl (length m - 1) t
          | None => c :: sub_from r repl 0 t
          end
      end
  end.

Definition sub (r : regex) (repl : pstring -> groups -> pstring)
    (s : pstring) : pstring := sub_from r repl 0 s.

(** [re.search(r, s)]: the leftmost match, if any. *)
Fixpoint search (r : regex) (s : pstring) : option (pstring * groups) :=
  match match_at r s with
  | Some m => Some m
  | None =>
      match s with
      | [] => None
      | _ :: t => search r t
      end
  end.

(** The matches [re.sub] visits ([re.finditer]), for patterns that do not
    match the empty string. *)
Fixpoint finditer_from (r : regex) (skip : nat) (s : pstring)
    : list (pstring * groups) :=
  match s with
  | [] => []
  | c :: t =>
      match skip with
      | S n => finditer_from r n t
      | O =>
          match match_at r s with
          | Some (m, g) => (m, g) :: finditer_from r (length m - 1) t
          | None => finditer_from r 0 t
          end
      end
  end.

Definition finditer (r : regex) (s : pstring) : list (pstring * groups) :=
  finditer_from r 0 s.

(** *** Pattern syntax *)

Definition cat (rs : list regex) : regex := foldr Seq Eps rs.
Definition plus (r : regex) : regex := Seq r (Star true r).
Definition opt (r : regex) : regex := Alt r Eps.

(** A literal that has no case. *)
Definition lit (c : Z) : regex := Chr (fun x => x =? c).

(** Extra code points that match a cased literal under IGNORECASE besides
    those that lower to it: i ~ U+0131, s ~ U+017F. *)
Definition ignorecase_fixes (c : Z) : list Z :=
  if c =? 105 then [305] else if c =? 115 then [383] else [].

(** A lower-case ASCII letter of the pattern under IGNORECASE. *)
Definition lit_i (c : Z) : regex :=
  Chr (fun x => let l := sre_lower x in
                (l =? c) || existsb (Z.eqb l) (ignorecase_fixes c)).

Definition word_i (w : string) : regex := cat (map lit_i (py w)).

(** [[a-z0-9]] under IGNORECASE. *)
Definition alnum_i (x : Z) : bool :=
  let l := sre_lower x in
  in_range 97 122 l || in_range 48 57 l || (l =? 305) || (l =? 383).

(** [[^>]] *)
Definition not_gt (x : Z) : bool := negb (x =? 62).

(** [.] under DOTALL *)
Definition any (x : Z) : bool := true.

End Re.

Import Re.

(** The pattern of [normalize_ws]: one or more [\s]. *)
Definition WS_RE : regex := plus (Chr is_space).

(** The pattern of [strip_tags]: [<], one or more [[^>]], [>]. *)
Definition ANYTAG_RE : regex := cat [lit 60; plus (Chr not_gt); lit 62].

(** The first pattern of the sanitizer, flags [(?is)]: [<], group 1 =
    [script|style], any number of [[^>]], [>], a lazy run of any characters,
    [</], a back-reference to group 1, any number of [\s], [>]. *)
Definition SCRIPT_STYLE_RE : regex :=
  cat [lit 60; Group 1 (Alt (word_i "script") (word_i "style"));
       Star true (Chr not_gt); lit 62; Star false (Chr any);
       lit 60; lit 47; Backref 1; Star true (Chr is_space); lit 62].

(** The second pattern of the sanitizer, flags [(?is)]: [<], an optional
    [/], group 1 = one or more [[a-z0-9]], an optional group 2 = one or more
    [\s] then any number of [[^>]], and [>]. *)
Definition TAG_RE : regex :=
  cat [lit 60; opt (lit 47); Group 1 (plus (Chr alnum_i));
       opt (Group 2 (Seq (plus (Chr is_space)) (Star true (Chr not_gt))));
       lit 62].

(* ===================================================================== *)
(** ** Utilities of main.py *)
(* ===================================================================== *)

Definition const_repl (t : pstring) : pstring -> groups -> pstring :=
  fun _ _ => t.

(** [normalize_ws] *)
Definition normalize_ws (s : pstring) : pstring :=
  sub WS_RE (const_repl (py " ")) (py_strip s).

(** [strip_tags] *)
Definition strip_tags (html : pstring) : pstring :=
  normalize_ws (sub ANYTAG_RE (const_repl (py " ")) html).

(** The allow-set of [generate_body_html]. *)
Definition allowed : gset pstring :=
  list_to_set (map py ["p"; "h2"; "ul"; "li"; "strong"; "code"; "a"]%string).

(** [_strip_disallowed] *)
Definition _strip_disallowed (m : pstring) (g : groups) : pstring :=
  let tag := py_lower (default [] (group 1 g)) in
  if bool_decide (tag ∈ allowed) then m else [].

(** The two sanitizing passes of [generate_body_html]. *)
Definition remove_script_style (out : pstring) : pstring :=
  py_strip (sub SCRIPT_STYLE_RE (const_repl []) out).

Definition sanitize (out : pstring) : pstring :=
  sub TAG_RE _strip_disallowed (remove_script_style out).

Definition FALLBACK_BODY : pstring :=
  py "<p><strong>Summary</strong>: Not stated in the source.</p>".

(** The tail of [generate_body_html], from the API text on. *)
Definition body_of_response (out : pstring) : pstring :=
  let out := sanitize out in
  if bool_decide (out = []) then FALLBACK_BODY else out.


(* ===================================================================== *)
(** ** Python values, exceptions and the process state *)
(* ===================================================================== *)

(** The values [json.loads] yields.  A float is named by its [repr], which
    identifies it; a dict keeps one entry per key. *)
Inductive pyval :=
| PNone
| PBool (b : bool)
| PInt (z : Z)
| PFloat (repr : pstring)
| PStr (s : pstring)
| PList (l : list pyval)
| PDict (d : list (pstring * pyval)).

(** Truth value of an object ([if x], [x or y], [not x]). *)
Definition truthy (v : pyval) : bool :=
  match v with
  | PNone => false
  | PBool b => b
  | PInt z => negb (z =? 0)
  | PFloat r => negb (bool_decide (r = py "0.0") || bool_decide (r = py "-0.0"))
  | PStr s => negb (bool_decide (s = []))
  | PList l => negb (bool_decide (length l = 0%nat))
  | PDict d => negb (bool_decide (length d = 0%nat))
  end.

(** [x or y] *)
Definition py_or (x y : pyval) : pyval := if truthy x then x else y.

Fixpoint assoc (d : list (pstring * pyval)) (key : pstring) : option pyval :=
  match d with
  | [] => None
  | (k, v) :: d' => if bool_decide (k = key) then Some v else assoc d' key
  end.

(** [d.get(key)] on a dict *)
Definition dict_get (d : list (pstring * pyval)) (key : pstring) : pyval :=
  default PNone (assoc d key).

Inductive exn :=
| AttributeError | TypeError | ValueError | KeyError | IndexError
| OverflowError | OSError | UnicodeDecodeError | JSONDecodeError
| RequestException | HTTPError | TemplateNotFound | TemplateError.

(** How a call ends: it returns, raises [SystemExit(code)], or raises an
    exception that is an [Exception]. *)
Inductive outcome (A : Type) :=
| Ret (a : A)
| Exit (code : Z)
| Raise (e : exn).
Arguments Ret {A} a.
Arguments Exit {A} code.
Arguments Raise {A} e.

(** Exit status of the process when [main] ends this way; an uncaught
    exception ends the interpreter with status 1. *)
Definition exit_status (o : outcome unit) : Z :=
  match o with
  | Ret _ => 0
  | Exit code => code
  | Raise _ => 1
  end.

(** An entry of the directory of the program, by its path below [ROOT];
    [Unreadable] is a file whose bytes cannot be read as UTF-8 text. *)
Inductive node :=
| Dir
| File (text : pstring)
| Unreadable.

Inductive http_result :=
| HttpFailed
| HttpResponse (status : Z) (text : pstring).

(** The JSON body of the chat request. *)
Record chat_payload := {
  p_model : pstring;
  p_system : pstring;
  p_user : pstring;
  p_temperature : pstring;
  p_max_tokens : Z;
}.

(** What the process does to the outside, in order. *)
Inductive event :=
| EvStat (path : pstring)
| EvRead (path : pstring)
| EvMkdir (path : pstring)
| EvWrite (path : pstring) (text : pstring)
| EvStdout (line : pstring)
| EvStderr (line : pstring)
| EvGetenv (name : pstring)
| EvHttpGet (url : pstring)
| EvHttpPost (url : pstring) (payload : chat_payload).

Record state := {
  fs : gmap pstring node;
  trace : list event;
}.

(** Values handed to a template. *)
Inductive tval :=
| TStr (s : pstring)
| TTime (t : Z)
| TList (l : list tval)
| TDict (d : list (pstring * tval)).

(** An entry of a parsed feed: what [e.get(key)] finds, and the time of
    [published_parsed] (seconds, as [time.mktime] converts it) when the
    entry has one that converts. *)
Record entry := {
  e_fields : list (pstring * pyval);
  e_published_parsed : option Z;
}.

Inductive args_outcome :=
| ArgsExit (code : Z)
| Parsed (selftest : bool).

(** The collaborators of the program: the command line, the environment,
    the network, the clock and the libraries it calls. *)
Record Env := {
  (** [ap.parse_args()]: the parser exits by itself on [--help] and on a
      command line it rejects. *)
  parse_args : args_outcome;
  getenv : pstring -> option pstring;
  (** [requests.get] / [requests.post]: a response, or an exception *)
  requests_get : pstring -> http_result;
  requests_post : pstring -> pstring -> chat_payload -> http_result;
  (** [feedparser.parse(text).entries] *)
  feedparser_parse : pstring -> list entry;
  (** [json.loads]; [None] when it raises *)
  json_loads : pstring -> option pyval;
  (** [json.dumps(v, ensure_ascii=False, indent=2)] *)
  json_dumps : pyval -> pstring;
  (** [str] of a list or a dict *)
  py_repr : pyval -> pstring;
  (** [float(int)], [float(str)], [int(float)], [int(str)]; [None] when
      the conversion raises *)
  float_of_int : Z -> option pstring;
  float_of_str : pstring -> option pstring;
  int_of_float : pstring -> option Z;
  int_of_str : pstring -> option Z;
  (** [slugify]; its result is one path segment *)
  slugify : pstring -> pstring;
  (** [Template(source).render(...)]; [None] when the template or the
      rendering raises *)
  jinja_render : pstring -> list (pstring * tval) -> option pstring;
  (** the clock: [datetime.now(timezone.utc)] and its ISO form *)
  now_utc : Z;
  now_utc_iso : pstring;
  (** [str(ROOT)] *)
  root : pstring;
}.

(** The monad of the program: state passing with early exit. *)
Definition M (A : Type) : Type := state -> outcome A * state.

Definition ret {A} (a : A) : M A := fun st => (Ret a, st).

Definition bind {A B} (k : A -> M B) (m : M A) : M B :=
  fun st =>
    match m st with
    | (Ret a, st') => k a st'
    | (Exit code, st') => (Exit code, st')
    | (Raise e, st') => (Raise e, st')
    end.

#[global] Instance M_ret : MRet M := @ret.
#[global] Instance M_bind : MBind M := @bind.

Definition emit (ev : event) : M unit :=
  fun st => (Ret tt, {| fs := fs st; trace := trace st ++ [ev] |}).

Definition raise {A} (e : exn) : M A := fun st => (Raise e, st).

(** [raise SystemExit(code)] *)
Definition sys_exit {A} (code : Z) : M A := fun st => (Exit code, st).

(** [try: m  except Exception: handler]; [SystemExit] is no [Exception]. *)
Definition try_except {A} (m : M A) (handler : exn -> M A) : M A :=
  fun st =>
    match m st with
    | (Raise e, st') => handler e st'
    | r => r
    end.

(** A computation that leaves the state alone. *)
Definition lift {A} (o : outcome A) : M A := fun st => (o, st).

Definition of_option {A} (o : option A) (e : exn) : outcome A :=
  match o with
  | Some a => Ret a
  | None => Raise e
  end.

(** [print(msg)] *)
Definition print (msg : pstring) : M unit := emit (EvStdout msg).

(** [die] *)
Definition die {A} (msg : pstring) (code : Z) : M A :=
  emit (EvStderr msg);; sys_exit code.

(** *** Paths and files *)

Definition CONFIG_PATH : pstring := py "config.json".
Definition CONFIG_EXAMPLE_PATH : pstring := py "config.example.json".
Definition LITE_LOCK_PATH : pstring := py ".lite_lock.json".
Definition TEMPLATES_DIR : pstring := py "templates".
Definition ASSETS_SRC_DIR : pstring := py "assets".
Definition ASSETS_OUT_DIR : pstring := py "assets".
Definition POSTS_DIR : pstring := py "posts".

(** [dir / name] *)
Definition path_join (dir name : pstring) : pstring := dir ++ [47] ++ name.

(** The directories above a path, outermost first: the prefixes that end
    before a [/]. *)
Fixpoint ancestors_from (seen rest : pstring) : list pstring :=
  match rest with
  | [] => []
  | c :: rest' =>
      if c =? 47 then seen :: ancestors_from (seen ++ [c]) rest'
      else ancestors_from (seen ++ [c]) rest'
  end.

Definition ancestors (path : pstring) : list pstring := ancestors_from [] path.

Definition get_fs : M (gmap pstring node) := fun st => (Ret (fs st), st).

Definition put_fs (f : gmap pstring node) : M unit :=
  fun st => (Ret tt, {| fs := f; trace := trace st |}).

(** [path.exists()] *)
Definition path_exists (path : pstring) : M bool :=
  emit (EvStat path);;
  f ← get_fs;
  ret (bool_decide (is_Some (f !! path))).

(** [path.read_text(encoding="utf-8")] *)
Definition read_text (path : pstring) : M pstring :=
  emit (EvRead path);;
  f ← get_fs;
  match f !! path with
  | Some (File text) => ret text
  | Some Unreadable => raise UnicodeDecodeError
  | Some Dir | None => raise OSError
  end.

(** One step of [mkdir(parents=True, exist_ok=True)]. *)
Definition mkdir1 (d : pstring) : M unit :=
  f ← get_fs;
  match f !! d with
  | Some Dir => ret tt
  | Some _ => raise OSError
  | None => put_fs (<[d := Dir]> f);; emit (EvMkdir d)
  end.

Fixpoint mkdirs (ds : list pstring) : M unit :=
  match ds with
  | [] => ret tt
  | d :: ds' => mkdir1 d;; mkdirs ds'
  end.

(** [write_text]: create the parent directories, then write the file. *)
Definition write_text (path : pstring) (s : pstring) : M unit :=
  mkdirs (ancestors path);;
  f ← get_fs;
  match f !! path with
  | Some Dir => raise OSError
  | _ => put_fs (<[path := File s]> f);; emit (EvWrite path s)
  end.

Section Program.

Variable E : Env.

(** [read_json] *)
Definition read_json (path : pstring) : M pyval :=
  text ← read_text path;
  lift (of_option (json_loads E text) JSONDecodeError).

(** [str(v)] *)
Definition py_str (v : pyval) : pstring :=
  match v with
  | PNone => py "None"
  | PBool true => py "True"
  | PBool false => py "False"
  | PInt z => py (NilZero.string_of_int (Z.to_int z))
  | PFloat r => r
  | PStr s => s
  | PList _ | PDict _ => py_repr E v
  end.

(** [v.get(key)]: only a dict has the method. *)
Definition py_get (v : pyval) (key : string) : outcome pyval :=
  match v with
  | PDict d => Ret (dict_get d (py key))
  | _ => Raise AttributeError
  end.

(** [float(v)] *)
Definition py_float (v : pyval) : outcome pstring :=
  match v with
  | PFloat r => Ret r
  | PBool b => Ret (if b then py "1.0" else py "0.0")
  | PInt z => of_option (float_of_int E z) OverflowError
  | PStr s => of_option (float_of_str E s) ValueError
  | PNone | PList _ | PDict _ => Raise TypeError
  end.

(** [int(v)] *)
Definition py_int (v : pyval) : outcome Z :=
  match v with
  | PInt z => Ret z
  | PBool b => Ret (if b then 1 else 0)
  | PFloat r => of_option (int_of_float E r) ValueError
  | PStr s => of_option (int_of_str E s) ValueError
  | PNone | PList _ | PDict _ => Raise TypeError
  end.

(** [v if v is not None else d] *)
Definition if_not_none (v d : pyval) : pyval :=
  match v with
  | PNone => d
  | _ => v
  end.

(** [str(v or "deepseek-chat").strip()] *)
Definition model_field (v : pyval) : pstring :=
  py_strip (py_str (py_or v (PStr (py "deepseek-chat")))).

(** [str(v or "").strip()] *)
Definition str_field (v : pyval) : pstring :=
  py_strip (py_str (py_or v (PStr []))).

(* --------------------------------------------------------------------- *)
(** *** Config *)
(* --------------------------------------------------------------------- *)

Record SiteConfig := {
  title : pstring;
  description : pstring;
  base_url : pstring;
}.

Record GenConfig := {
  model : pstring;
  temperature : pstring;
  max_tokens : Z;
}.

Record AppConfig := {
  site : SiteConfig;
  rss_url : pstring;
  generation : GenConfig;
  contact_email : pstring;
}.

(** The [missing] list of [load_config], built field by field. *)
Definition missing_fields (title desc base_url rss_url contact_email : pstring)
    : list pstring :=
  (if bool_decide (title = []) then [py "site.title"] else [])
  ++ (if bool_decide (desc = []) then [py "site.description"] else [])
  ++ (if bool_decide (base_url = []) then [py "site.base_url"] else [])
  ++ (if bool_decide (rss_url = []) then [py "rss_url"] else [])
  ++ (if bool_decide (contact_email = []) then [py "contact_email"] else []).

(** [load_config] *)
Definition load_config : M AppConfig :=
  present ← path_exists CONFIG_PATH;
  (if present : bool then ret tt
   else die (py "Copy config.example.json to config.json") 2);;
  cfg ← read_json CONFIG_PATH;
  site_v ← lift (py_get cfg "site");
  let site := py_or site_v (PDict []) in
  title_v ← lift (py_get site "title");
  let title := str_field title_v in
  desc_v ← lift (py_get site "description");
  let desc := str_field desc_v in
  base_v ← lift (py_get site "base_url");
  let base_url := rstrip_char 47 (str_field base_v) in
  rss_v ← lift (py_get cfg "rss_url");
  let rss_url := str_field rss_v in
  gen_v ← lift (py_get cfg "generation");
  let gen := py_or gen_v (PDict []) in
  model_v ← lift (py_get gen "model");
  let model := model_field model_v in
  temp_v ← lift (py_get gen "temperature");
  temperature ← lift (py_float (if_not_none temp_v (PFloat (py "0.7"))));
  max_v ← lift (py_get gen "max_tokens");
  max_tokens ← lift (py_int (if_not_none max_v (PInt 2200)));
  email_v ← lift (py_get cfg "contact_email");
  let contact_email := str_field email_v in
  let missing := missing_fields title desc base_url rss_url contact_email in
  (if bool_decide (missing = []) then ret tt
   else die (py "Missing required config fields: " ++ join (py ", ") missing)
            2);;
  (if startswith (py "http://") base_url || startswith (py "https://") base_url
   then ret tt
   else die (py "config.site.base_url must start with https:// (example: https://YOURNAME.github.io/YOURREPO)") 2);;
  ret {| site := {| title := title; description := desc;
                    base_url := base_url |};
         rss_url := rss_url;
         generation := {| model := model; temperature := temperature;
                          max_tokens := max_tokens |};
         contact_email := contact_email |}.

(* --------------------------------------------------------------------- *)
(** *** DeepSeek *)
(* --------------------------------------------------------------------- *)

Definition DEEPSEEK_URL : pstring :=
  py "https://api.deepseek.com/v1/chat/completions".

(** [data["choices"][0]["message"]["content"]]: the value, or [None] when
    one of the subscripts raises. *)
Definition subscript_key (v : pyval) (key : string) : option pyval :=
  match v with
  | PDict d => assoc d (py key)
  | _ => None
  end.

Definition subscript_0 (v : pyval) : option pyval :=
  match v with
  | PList (x :: _) => Some x
  | PStr (c :: _) => Some (PStr [c])
  | _ => None
  end.

Definition response_content (data : pyval) : option pyval :=
  choices ← subscript_key data "choices";
  first ← subscript_0 choices;
  message ← subscript_key first "message";
  subscript_key message "content".

(** [(content or "").strip()]: only a [str] has the method. *)
Definition content_text (content : pyval) : option pstring :=
  match py_or content (PStr []) with
  | PStr s => Some (py_strip s)
  | _ => None
  end.

(** [deepseek_chat] *)
Definition deepseek_chat (api_key : pstring) (payload : chat_payload)
    : M pstring :=
  emit (EvHttpPost DEEPSEEK_URL payload);;
  match requests_post E DEEPSEEK_URL api_key payload with
  | HttpFailed => raise RequestException
  | HttpResponse status text =>
      (if status =? 200 then ret tt
       else die (py "DeepSeek API error: HTTP "
                 ++ py_str (PInt status) ++ [10] ++ take 800 text) 3);;
      data ← lift (of_option (json_loads E text) JSONDecodeError);
      match response_content data ≫= content_text with
      | Some out => ret out
      | None => die (py "DeepSeek API response format unexpected.") 3
      end
  end.

(* --------------------------------------------------------------------- *)
(** *** RSS *)
(* --------------------------------------------------------------------- *)

Record Item := {
  item_title : pstring;
  item_link : pstring;
  item_summary : pstring;
  item_published : pstring;
  item_rss_url : pstring;
  item_raw_entry : entry;
}.

(** [e.get(key)] on a feed entry *)
Definition entry_get (e : entry) (key : string) : pyval :=
  dict_get (e_fields e) (py key).

(** [r.raise_for_status()] raises on a 4xx or 5xx status. *)
Definition is_error_status (status : Z) : bool :=
  (400 <=? status) && (status <? 600).

(** [fetch_latest_item] *)
Definition fetch_latest_item (rss_url : pstring) : M Item :=
  emit (EvHttpGet rss_url);;
  match requests_get E rss_url with
  | HttpFailed => raise RequestException
  | HttpResponse status text =>
      (if is_error_status status then raise HTTPError else ret tt);;
      match feedparser_parse E text with
      | [] => die (py "RSS has no entries.") 4
      | e :: _ =>
          let title := str_field (entry_get e "title") in
          let link := str_field (entry_get e "link") in
          let summary :=
            py_strip (py_str (py_or (entry_get e "summary")
                               (py_or (entry_get e "description") (PStr []))))
          in
          let published :=
            py_strip (py_str (py_or (entry_get e "published")
                               (py_or (entry_get e "updated") (PStr []))))
          in
          (if bool_decide (title = []) || bool_decide (link = [])
           then die (py "RSS entry is missing title/link.") 4
           else ret tt);;
          ret {| item_title := title; item_link := link;
                 item_summary := summary; item_published := published;
                 item_rss_url := rss_url; item_raw_entry := e |}
      end
  end.

(* --------------------------------------------------------------------- *)
(** *** Rendering *)
(* --------------------------------------------------------------------- *)

(** [jinja_env]: only the presence of the templates folder is checked. *)
Definition jinja_env : M unit :=
  present ← path_exists TEMPLATES_DIR;
  if present : bool then ret tt
  else die (py "templates/ folder missing: "
            ++ path_join (root E) TEMPLATES_DIR) 5.

(** [env.get_template(name)] *)
Definition get_template (name : string) : M pstring :=
  let path := path_join TEMPLATES_DIR (py name) in
  f ← get_fs;
  match f !! path with
  | Some Dir | None => raise TemplateNotFound
  | Some _ => read_text path
  end.

(** [template.render(...)] *)
Definition render (source : pstring) (kwargs : list (pstring * tval))
    : M pstring :=
  lift (of_option (jinja_render E source kwargs) TemplateError).

(** [build_robots] *)
Definition build_robots (base_url : pstring) : pstring :=
  py "User-agent: *" ++ [10] ++ py "Allow: /" ++ [10] ++ [10]
  ++ py "Sitemap: " ++ base_url ++ py "/sitemap.xml" ++ [10].

(** The list comprehension of [build_sitemap]. *)
Definition sitemap_items (urls : list pstring) : list pstring :=
  map (fun u => py "<url><loc>" ++ u ++ py "</loc></url>") urls.

(** [build_sitemap] *)
Definition build_sitemap (urls : list pstring) : pstring :=
  py "<?xml version=" ++ [34] ++ py "1.0" ++ [34] ++ py " encoding="
  ++ [34] ++ py "UTF-8" ++ [34] ++ py "?>" ++ [10]
  ++ py "<urlset xmlns=" ++ [34]
  ++ py "http://www.sitemaps.org/schemas/sitemap/0.9" ++ [34] ++ py ">"
  ++ [10] ++ join [10] (sitemap_items urls) ++ [10]
  ++ py "</urlset>" ++ [10].

(** [copy_assets] *)
Definition copy_assets : M unit :=
  let css := path_join ASSETS_SRC_DIR (py "style.css") in
  present ← path_exists css;
  (if present : bool then ret tt else die (py "assets/style.css missing.") 5);;
  css_text ← read_text css;
  write_text (path_join ASSETS_OUT_DIR (py "style.css")) css_text;;
  let appjs := path_join ASSETS_SRC_DIR (py "app.js") in
  has_js ← path_exists appjs;
  if has_js : bool then
    js_text ← read_text appjs;
    write_text (path_join ASSETS_OUT_DIR (py "app.js")) js_text
  else ret tt.

(** [safe_filename] *)
Definition safe_filename (s : pstring) : pstring :=
  let slug := take 80 (slugify E s) in
  if bool_decide (slug = []) then py "post" else slug.

Definition post_rel_of (item : Item) : pstring :=
  py "posts/" ++ safe_filename (item_title item) ++ py ".html".

Definition post_url_of (cfg : AppConfig) (item : Item) : pstring :=
  base_url (site cfg) ++ py "/" ++ post_rel_of item.

(** The [urls] list of [render_site]. *)
Definition sitemap_urls (cfg : AppConfig) (item : Item) : list pstring :=
  [base_url (site cfg) ++ py "/"; base_url (site cfg) ++ py "/index.html";
   post_url_of cfg item].

(** [post_obj] of [render_site] *)
Definition post_obj (item : Item) : list (pstring * tval) :=
  let published_dt :=
    match e_published_parsed (item_raw_entry item) with
    | Some t => t
    | None => now_utc E
    end in
  [(py "slug", TStr (safe_filename (item_title item)));
   (py "title", TStr (item_title item));
   (py "source", TStr (item_link item));
   (py "url", TStr (item_link item));
   (py "published", TTime published_dt);
   (py "summary", TStr (strip_tags (item_summary item)))].

(** [render_site] *)
Definition render_site (cfg : AppConfig) (item : Item) (body_html : pstring)
    : M (pstring * pstring) :=
  jinja_env;;
  let post_rel := post_rel_of item in
  let post_url := post_url_of cfg item in
  tpl_index ← get_template "index.html";
  index_html ← render tpl_index
    [(py "site_title", TStr (title (site cfg)));
     (py "site_description", TStr (description (site cfg)));
     (py "base_url", TStr (base_url (site cfg)));
     (py "generated_at", TTime (now_utc E));
     (py "posts", TList [TDict (post_obj item)])];
  write_text (py "index.html") index_html;;
  tpl_post ← get_template "post.html";
  post_html ← render tpl_post
    [(py "site_title", TStr (title (site cfg)));
     (py "base_url", TStr (base_url (site cfg)));
     (py "post", TDict (post_obj item ++
        [(py "summary", TStr (strip_tags (item_summary item)));
         (py "body_html", TStr body_html);
         (py "rss_url", TStr (item_rss_url item));
         (py "generated_utc", TStr (now_utc_iso E));
         (py "contact_email", TStr (contact_email cfg))]))];
  write_text post_rel post_html;;
  write_text (py "robots.txt") (build_robots (base_url (site cfg)));;
  write_text (py "sitemap.xml") (build_sitemap (sitemap_urls cfg item));;
  ret (post_rel, post_url).

(* --------------------------------------------------------------------- *)
(** *** Lite lock *)
(* --------------------------------------------------------------------- *)

Definition lock_message (data : pyval) : pstring :=
  let when :=
    match data with
    | PDict d => dict_get d (py "created_utc")
    | _ => PNone
    end in
  py "LITE already ran once. This package is one-shot by design."
  ++ (if truthy when then py " (first run: " ++ py_str when ++ py ")" else []).

(** [check_lite_lock] *)
Definition check_lite_lock : M unit :=
  present ← path_exists LITE_LOCK_PATH;
  if present : bool then
    data ← try_except (read_json LITE_LOCK_PATH) (fun _ => ret (PDict []));
    print (lock_message data);;
    sys_exit 0
  else ret tt.

(** [write_lite_lock] *)
Definition write_lite_lock (post_url : pstring) : M unit :=
  let payload :=
    PDict [(py "created_utc", PStr (now_utc_iso E));
           (py "post_url", PStr post_url);
           (py "note", PStr (py "Lite one-shot lock. Delete this file if you are the author and want to rerun locally."))] in
  write_text LITE_LOCK_PATH (json_dumps E payload ++ [10]).

(* --------------------------------------------------------------------- *)
(** *** Generation *)
(* --------------------------------------------------------------------- *)

Definition SYSTEM_PROMPT : pstring :=
  py "You are a careful technical writer. Write in English only. "
  ++ py "Do not fabricate facts. If something is not stated in the source, say: 'Not stated in the source.' "
  ++ py "Output HTML only (no markdown).".

(** The user prompt; U+2013 is the dash of the ranges. *)
Definition user_prompt (title link summary : pstring) : pstring :=
  py_strip (join [10]
    [[];
     py "OUTPUT RULES:";
     py "- Output HTML body only.";
     py "- Allowed tags: <p>, <h2>, <ul>, <li>, <strong>, <code>, <a>";
     py "- No <h1>.";
     py "- No scripts.";
     py "- Be concise but useful.";
     [];
     py "INPUT:";
     py "Title: " ++ title;
     py "Link: " ++ link;
     py "RSS snippet: " ++ summary;
     [];
     py "STRUCTURE:";
     py "1) <p><strong>Summary</strong>: 2" ++ [8211]
       ++ py "4 sentences. Mention what happened and who it matters to.</p>";
     py "2) <h2>Key points</h2> + 4" ++ [8211] ++ py "6 bullets";
     py "3) <h2>Practical takeaway</h2> + 2" ++ [8211] ++ py "4 bullets";
     py "4) <h2>Original source</h2> link to the URL";
     []]).

(** [generate_body_html] *)
Definition generate_body_html (cfg : AppConfig) (item : Item) : M pstring :=
  emit (EvGetenv (py "DEEPSEEK_API_KEY"));;
  let api_key := py_strip (default [] (getenv E (py "DEEPSEEK_API_KEY"))) in
  (if bool_decide (api_key = [])
   then die (py "Missing DEEPSEEK_API_KEY (set it as a GitHub Actions secret).") 2
   else ret tt);;
  let summary := take 800 (strip_tags (item_summary item)) in
  out ← deepseek_chat api_key
    {| p_model := model (generation cfg);
       p_system := SYSTEM_PROMPT;
       p_user := user_prompt (item_title item) (item_link item) summary;
       p_temperature := temperature (generation cfg);
       p_max_tokens := max_tokens (generation cfg) |};
  ret (body_of_response out).

(* --------------------------------------------------------------------- *)
(** *** Self test and main *)
(* --------------------------------------------------------------------- *)

Definition require_file (path : pstring) (msg : string) : M unit :=
  present ← path_exists path;
  if present : bool then ret tt else die (py msg) 5.

(** [selftest] *)
Definition selftest : M unit :=
  require_file CONFIG_EXAMPLE_PATH "config.example.json missing.";;
  require_file (path_join TEMPLATES_DIR (py "index.html"))
    "templates/index.html missing.";;
  require_file (path_join TEMPLATES_DIR (py "post.html"))
    "templates/post.html missing.";;
  require_file (path_join ASSETS_SRC_DIR (py "style.css"))
    "assets/style.css missing.";;
  print (py "SELFTEST OK").

(** The pipeline of [main], after the argument parsing. *)
Definition pipeline : M unit :=
  check_lite_lock;;
  cfg ← load_config;
  item ← fetch_latest_item (rss_url cfg);
  body_html ← generate_body_html cfg item;
  copy_assets;;
  '(_post_rel, post_url) ← render_site cfg item body_html;
  write_lite_lock post_url;;
  print (py "DONE");;
  print (py "Post: " ++ post_url).

(** [main] *)
Definition main : M unit :=
  match parse_args E with
  | ArgsExit code => sys_exit code
  | Parsed true => selftest
  | Parsed false => pipeline
  end.

End Program.

(* ===================================================================== *)
(** ** Concrete runs *)
(* ===================================================================== *)

(** The end-to-end scenario: a site at [https://ex.github.io/site], a feed
    with the entry [Hello World], and a reply of the generation API. *)
Module Demo.

Definition site_doc : pyval :=
  PDict [(py "title", PStr (py "Example"));
         (py "description", PStr (py "A site"));
         (py "base_url", PStr (py "https://ex.github.io/site"))].

Definition config_with (site generation : pyval) : pyval :=
  PDict [(py "site", site);
         (py "rss_url", PStr (py "https://src.example/feed.xml"));
         (py "generation", generation);
         (py "contact_email", PStr (py "me@example.org"))].

Definition config_doc : pyval := config_with site_doc (PDict []).

Definition entry_of (fields : list (pstring * pyval)) : entry :=
  {| e_fields := fields; e_published_parsed := None |}.

Definition feed_entry : entry :=
  entry_of [(py "title", PStr (py "Hello World"));
            (py "link", PStr (py "https://src.example/a"));
            (py "summary", PStr (py "<p>abc</p>"))].

Definition api_text : pstring :=
  py "<p><strong>Summary</strong>: test</p><script>bad()</script>".

Definition api_doc (text : pstring) : pyval :=
  PDict [(py "choices",
          PList [PDict [(py "message",
                         PDict [(py "content", PStr text)])]])].

(** The file [config.json] holds the text [CONFIG], read as [config]; the
    feed is served as [FEED] and parsed to [entries]; the API answers
    [REPLY], read as the document of [reply]. *)
Definition env_with (args : args_outcome) (config : pyval)
    (entries : list entry) (reply : pstring) : Env :=
  {| parse_args := args;
     getenv := fun name =>
       if bool_decide (name = py "DEEPSEEK_API_KEY") then Some (py "sk-test")
       else None;
     requests_get := fun _ => HttpResponse 200 (py "FEED");
     requests_post := fun _ _ _ => HttpResponse 200 (py "REPLY");
     feedparser_parse := fun _ => entries;
     json_loads := fun text =>
       if bool_decide (text = py "CONFIG") then Some config
       else if bool_decide (text = py "REPLY") then Some (api_doc reply)
       else None;
     json_dumps := fun _ => py "{}";
     py_repr := fun _ => py "[...]";
     float_of_int := fun _ => None;
     float_of_str := fun _ => None;
     int_of_float := fun _ => None;
     int_of_str := fun _ => None;
     slugify := fun _ => py "hello-world";
     jinja_render := fun source _ => Some source;
     now_utc := 0;
     now_utc_iso := py "2024-01-01T00:00:00+00:00";
     root := py "/site" |}.

Definition env : Env := env_with (Parsed false) config_doc [feed_entry] api_text.

(** The directory before the first run. *)
Definition files : gmap pstring node :=
  list_to_map
    [(py "config.json", File (py "CONFIG"));
     (py "config.example.json", File (py "EXAMPLE"));
     (py "templates", Dir);
     (py "templates/index.html", File (py "INDEX"));
     (py "templates/post.html", File (py "POST"));
     (py "assets", Dir);
     (py "assets/style.css", File (py "CSS"))].

Definition start : state := {| fs := files; trace := [] |}.

(** A directory that holds a lock marker whose content is no JSON. *)
Definition locked : state :=
  {| fs := <[LITE_LOCK_PATH := File (py "garbage")]> files; trace := [] |}.

(** A locked directory from which [config.example.json] was removed, and
    a self-test run in it. *)
Definition locked_no_example : state :=
  {| fs := delete CONFIG_EXAMPLE_PATH (fs locked); trace := [] |}.

Definition selftest_env : Env :=
  env_with (Parsed true) config_doc [feed_entry] api_text.


(** A configuration whose [site] is a string. *)
Definition site_string_env : Env :=
  env_with (Parsed false) (config_with (PStr (py "My Blog")) (PDict []))
    [feed_entry] api_text.

(** A configuration whose [generation.model] is blank. *)
Definition blank_model_env : Env :=
  env_with (Parsed false)
    (config_with site_doc (PDict [(py "model", PStr (py "   "))]))
    [feed_entry] api_text.

(** A configuration with a title and a blank [rss_url] only. *)
Definition incomplete_env : Env :=
  env_with (Parsed false)
    (PDict [(py "site", PDict [(py "title", PStr (py "Example"))]);
            (py "rss_url", PStr (py "   "))])
    [feed_entry] api_text.

(** A feed whose first entry has a title and no link. *)
Definition no_link_env : Env :=
  env_with (Parsed false) config_doc
    [entry_of [(py "title", PStr (py "Hello World"))]] api_text.


Definition demo_cfg : AppConfig :=
  {| site := {| title := py "Example"; description := py "A site";
                base_url := py "https://ex.github.io/site" |};
     rss_url := py "https://src.example/feed.xml";
     generation := {| model := py "deepseek-chat"; temperature := py "0.7";
                      max_tokens := 2200 |};
     contact_email := py "me@example.org" |}.

Definition demo_item : Item :=
  {| item_title := py "Hello World"; item_link := py "https://src.example/a";
     item_summary := py "<p>abc</p>"; item_published := [];
     item_rss_url := py "https://src.example/feed.xml";
     item_raw_entry := feed_entry |}.

End Demo.

(* ===================================================================== *)
(** ** Specification-side definitions *)
(* ===================================================================== *)

(** Direct readings of a greedy and of a lazy run of one-character items,
    used to reason about [Star _ (Chr p)]. *)
Fixpoint greedy_run (p : Z -> bool) (k : cont) (s : pstring) (g : groups)
    : mresult :=
  match s with
  | c :: t => if p c then orelse (greedy_run p k t g) (k s g) else k s g
  | [] => k s g
  end.

Fixpoint lazy_run (p : Z -> bool) (k : cont) (s : pstring) (g : groups)
    : mresult :=
  orelse (k s g)
    match s with
    | c :: t => if p c then lazy_run p k t g else None
    | [] => None
    end.

(** The continuation that asks for a [>] next. *)
Definition then_gt (k : cont) : cont :=
  fun s g =>
    match s with
    | x :: s' => if x =? 62 then k s' g else None
    | [] => None
    end.

(** What follows an unmatched [<] in tag-free text: a [>] at once, or no
    [>] at all. *)
Definition open_ok (t : pstring) : Prop := head t = Some 62 \/ 62 ∉ t.

(** Text in which the pattern of [strip_tags] finds no tag. *)
Fixpoint tagfree (s : pstring) : Prop :=
  match s with
  | [] => True
  | x :: t => (x = 60 -> open_ok t) /\ tagfree t
  end.

(** Every tag the second pattern of the sanitizer finds in [t] has its
    name in the allow-set. *)
Definition only_allowed_tags (t : pstring) : bool :=
  forallb (fun mg => bool_decide (py_lower (default [] (group 1 mg.2)) ∈ allowed))
          (finditer TAG_RE t).

(** The first pattern of the sanitizer finds no script or style element. *)
Definition no_script_style (t : pstring) : bool :=
  bool_decide (search SCRIPT_STYLE_RE t = None).

(** The name of the first tag the second pattern finds. *)
Definition first_tag_name (t : pstring) : option pstring :=
  match search TAG_RE t with
  | Some (_, g) => group 1 g
  | None => None
  end.

(** Relations between the directory before and after a computation. *)
Definition fs_rel : Type := gmap pstring node -> gmap pstring node -> Prop.

(** The entry at [p] is the same. *)
Definition same_at (p : pstring) : fs_rel := fun f f' => f' !! p = f !! p.

(** A file [p] with the text [x] stays. *)
Definition keeps_file (p x : pstring) : fs_rel :=
  fun f f' => f !! p = Some (File x) -> f' !! p = Some (File x).

(** [m] relates the directory it starts in to the one it ends in, however
    it ends. *)
Definition preserves {A} (Q : fs_rel) (m : M A) : Prop :=
  forall st, Q (fs st) (fs (m st).2).


(** [m] always returns. *)
Definition returns {A} (m : M A) : Prop :=
  forall st, exists a, (m st).1 = Ret a.

(** A call that does not return. *)
Definition fails {A} (o : outcome A) : Prop := forall a, o <> Ret a.

(** The title and the link [fetch_latest_item] reads from an entry. *)
Definition entry_title (E : Env) (e : entry) : pstring :=
  str_field E (entry_get e "title").

Definition entry_link (E : Env) (e : entry) : pstring :=
  str_field E (entry_get e "link").

(** When [fetch_latest_item] fails: the request raises or answers with an
    error status, the feed has no entry, or the first entry lacks a title
    or lacks a link. *)
Definition feed_error (E : Env) (url : pstring) : bool :=
  match requests_get E url with
  | HttpFailed => true
  | HttpResponse status text =>
      is_error_status status
      || match feedparser_parse E text with
         | [] => true
         | e :: _ =>
             bool_decide (entry_title E e = [])
             || bool_decide (entry_link E e = [])
         end
  end.

(** The condition in the words of the specification: the last case is an
    entry that lacks both a title and a link. *)
Definition claimed_feed_error (E : Env) (url : pstring) : bool :=
  match requests_get E url with
  | HttpFailed => true
  | HttpResponse status text =>
      is_error_status status
      || match feedparser_parse E text with
         | [] => true
         | e :: _ =>
             bool_decide (entry_title E e = [])
             && bool_decide (entry_link E e = [])
         end
  end.

(** The message holds the name. *)
Definition names (msg name : pstring) : Prop :=
  exists a b, msg = a ++ name ++ b.

(** The value at a dotted path of a document, such as [site.title]. *)
Fixpoint doc_field (doc : pyval) (path : list string) : option pyval :=
  match path with
  | [] => Some doc
  | key :: rest =>
      match doc with
      | PDict d =>
          match assoc d (py key) with
          | Some v => doc_field v rest
          | None => None
          end
      | _ => None
      end
  end.

(** The required fields [load_config] finds missing in a document with the
    top-level entries [d] and the [site] entries [sd]. *)
Definition config_missing (E : Env) (sd d : list (pstring * pyval))
    : list pstring :=
  missing_fields
    (str_field E (dict_get sd (py "title")))
    (str_field E (dict_get sd (py "description")))
    (rstrip_char 47 (str_field E (dict_get sd (py "base_url"))))
    (str_field E (dict_get d (py "rss_url")))
    (str_field E (dict_get d (py "contact_email"))).

(** Collapsing white space directly: [in_run] tells that the character
    before was white space, already replaced by one space. *)
Fixpoint collapse (in_run : bool) (s : pstring) : pstring :=
  match s with
  | [] => []
  | c :: t =>
      if is_space c
      then (if in_run then collapse true t else 32 :: collapse true t)
      else c :: collapse false t
  end.

(** The length of the white space at the head of a text. *)
Fixpoint ws_run (s : pstring) : nat :=
  match s with
  | c :: t => if is_space c then S (ws_run t) else O
  | [] => O
  end.

(** Every white-space character is a single space followed by a character
    that is no white space. *)
Fixpoint ws_single (s : pstring) : bool :=
  match s with
  | [] => true
  | c :: t =>
      (if is_space c
       then (c =? 32) && match t with
                         | d :: _ => negb (is_space d)
                         | [] => false
                         end
       else true)
      && ws_single t
  end.

(** Normalized white space: none at the ends, single spaces inside. *)
Definition ws_normal (s : pstring) : bool :=
  match s with
  | c :: _ => negb (is_space c) && ws_single s
  | [] => true
  end.

(** The paths a run may create or change, apart from the post page and
    the [posts] directory above it. *)
Definition OUTPUT_PATHS : list pstring :=
  [ASSETS_OUT_DIR;
   path_join ASSETS_OUT_DIR (py "style.css");
   path_join ASSETS_OUT_DIR (py "app.js");
   py "index.html"; py "robots.txt"; py "sitemap.xml"; LITE_LOCK_PATH].

(** [m] raises [SystemExit] with codes in [C] only. *)
Definition exits_in {A} (C : Z -> Prop) (m : M A) : Prop :=
  forall st code st', m st = (Exit code, st') -> C code.

(** An outcome that is no [SystemExit]. *)
Definition no_exit {A} (o : outcome A) : Prop :=
  forall code, o <> Exit code.


(** The files [selftest] asks for. *)
Definition REQUIRED_FILES : list pstring :=
  [CONFIG_EXAMPLE_PATH; path_join TEMPLATES_DIR (py "index.html");
   path_join TEMPLATES_DIR (py "post.html");
   path_join ASSETS_SRC_DIR (py "style.css")].

(** [path.exists()] in the directory [f]. *)
Definition present (f : gmap pstring node) (p : pstring) : bool :=
  bool_decide (is_Some (f !! p)).

(** Events that stay on the machine and read only: tests for a path and
    printed lines. *)
Definition is_local (ev : event) : bool :=
  match ev with
  | EvStat _ | EvStdout _ | EvStderr _ => true
  | _ => false
  end.

Definition is_request (ev : event) : bool :=
  match ev with
  | EvHttpGet _ | EvHttpPost _ _ => true
  | _ => false
  end.

(** The HTTP requests among the events, in order. *)
Definition requests_of (evs : list event) : list event :=
  List.filter is_request evs.

(** [m] appends events to the trace, and the requests among them satisfy
    [P] however [m] ends. *)
Definition sends {A} (P : list event -> Prop) (m : M A) : Prop :=
  forall st, exists evs,
    trace (m st).2 = trace st ++ evs /\ P (requests_of evs).

Definition quiet {A} (m : M A) : Prop := sends (fun r => r = []) m.

(** At most one request, the chat completion. *)
Definition chat_only (r : list event) : Prop :=
  r = [] \/ exists payload, r = [EvHttpPost DEEPSEEK_URL payload].

(** The requests of a run: none, the feed, or the feed and then one chat
    completion. *)
Definition feed_then_chat (r : list event) : Prop :=
  r = []
  \/ (exists url, r = [EvHttpGet url])
  \/ (exists url payload,
        r = [EvHttpGet url; EvHttpPost DEEPSEEK_URL payload]).


(** A string with no white space around it. *)
Definition trimmed (s : pstring) : Prop := py_strip s = s.


(** A reply of the API whose message has [null] for its content. *)
Definition null_content_env : Env :=
  {| parse_args := Parsed false;
     getenv := getenv Demo.env;
     requests_get := requests_get Demo.env;
     requests_post := requests_post Demo.env;
     feedparser_parse := feedparser_parse Demo.env;
     json_loads := fun text =>
       if bool_decide (text = py "REPLY")
       then Some (PDict [(py "choices",
                          PList [PDict [(py "message",
                                         PDict [(py "content", PNone)])]])])
       else json_loads Demo.env text;
     json_dumps := json_dumps Demo.env;
     py_repr := py_repr Demo.env;
     float_of_int := float_of_int Demo.env;
     float_of_str := float_of_str Demo.env;
     int_of_float := int_of_float Demo.env;
     int_of_str := int_of_str Demo.env;
     slugify := slugify Demo.env;
     jinja_render := jinja_render Demo.env;
     now_utc := now_utc Demo.env;
     now_utc_iso := now_utc_iso Demo.env;
     root := root Demo.env |}.

(** The tag names the sanitizer keeps. *)
Definition ALLOWED_NAMES : list pstring :=
  map py ["p"; "h2"; "ul"; "li"; "strong"; "code"; "a"]%string.

(** An ordinary tag: [<], a [/] for an end tag, the name, a space and
    attributes if there are any, and [>]. *)
Definition plain_tag (closing : bool) (name : pstring)
    (attrs : option pstring) : pstring :=
  [60] ++ (if closing then [47] else []) ++ name
  ++ match attrs with Some a => 32 :: a | None => [] end ++ [62].

(** A continuation never hands back more text than it was given. *)
Definition shrinking (k : cont) : Prop :=
  forall s g s' g', k s g = Some (s', g') -> (length s' <= length s)%nat.

(* ===================================================================== *)
(** ** The matcher: general facts *)
(* ===================================================================== *)

Section Matcher.

Lemma orelse_None_r (a : mresult) : orelse a None = a.
Proof. by destruct a. Qed.

Lemma star_loop_shrinking greedy body k :
  shrinking k ->
  (forall k', shrinking k' -> forall s g s' g',
      body s g k' = Some (s', g') -> (length s' <= length s)%nat) ->
  forall fuel s g s' g',
    star_loop greedy body k fuel s g = Some (s', g') ->
    (length s' <= length s)%nat.
Proof.
  intros Hk Hbody. induction fuel as [|fuel IH]; intros s g s' g' H.
  - by apply Hk in H.
  - simpl in H.
    assert (Hagain : forall x y,
      body s g (fun s1 g1 => if (length s1 <? length s)%nat
                             then star_loop greedy body k fuel s1 g1
                             else None) = Some (x, y) ->
      (length x <= length s)%nat).
    { apply Hbody. intros s1 g1 s2 g2 H1.
      destruct (length s1 <? length s)%nat eqn:E; [|done].
      apply IH in H1. apply Nat.ltb_lt in E. lia. }
    destruct greedy; unfold orelse in H.
    + destruct (body s g _) as [[x y]|] eqn:E.
      * inversion H; subst. by eapply Hagain.
      * by apply Hk in H.
    + destruct (k s g) as [[x y]|] eqn:E.
      * inversion H; subst. by apply Hk in E.
      * by eapply Hagain.
Qed.

Lemma backref_ci_length t s s' :
  backref_ci t s = Some s' -> (length s' <= length s)%nat.
Proof.
  revert s; induction t as [|a t IH]; intros [|b s] H; simpl in H;
    try done.
  - inversion H; subst; done.
  - inversion H; subst; done.
  - destruct (sre_lower a =? sre_lower b); [|done].
    apply IH in H. simpl. lia.
Qed.

(** The text left after a match is never longer than the text matched. *)
Lemma rmatch_shrinking r : forall k, shrinking k ->
  forall s g s' g', rmatch r s g k = Some (s', g') ->
  (length s' <= length s)%nat.
Proof.
  induction r as [|p|r1 IH1 r2 IH2|r1 IH1 r2 IH2|gr r1 IH1|n r1 IH1|n];
    intros k Hk s g s' g' H; simpl in H.
  - by apply Hk in H.
  - destruct s as [|c s]; [done|]. destruct (p c); [|done].
    apply Hk in H. simpl. lia.
  - eapply IH1; [|exact H]. intros s1 g1 s2 g2 H2. by eapply IH2.
  - unfold orelse in H. destruct (rmatch r1 s g k) as [[x y]|] eqn:E.
    + inversion H; subst. by eapply IH1.
    + by eapply IH2.
  - eapply star_loop_shrinking; [exact Hk| |exact H].
    intros k' Hk'. by apply IH1.
  - eapply IH1; [|exact H]. intros s1 g1 s2 g2 H2. by apply Hk in H2.
  - destruct (group n g) as [t|]; [|done].
    destruct (backref_ci t s) as [s1|] eqn:E; [|done].
    apply backref_ci_length in E. apply Hk in H. lia.
Qed.

Lemma shrinking_final : shrinking (fun s' g => Some (s', g)).
Proof. intros s g s' g' H. by inversion H. Qed.

(** A match is a prefix of the text it was found in. *)
Lemma match_at_prefix r s m g :
  match_at r s = Some (m, g) -> m = take (length m) s.
Proof.
  unfold match_at. destruct (rmatch r s [] _) as [[s' g']|]; [|done].
  intros H; inversion H; subst.
  rewrite length_take. f_equal. lia.
Qed.

(** A pattern that begins with a one-character item matches no empty text. *)
Lemma match_at_nonempty p r s m g :
  match_at (Seq (Chr p) r) s = Some (m, g) -> m <> [].
Proof.
  unfold match_at. simpl. destruct s as [|c s]; [done|].
  destruct (p c); [|done].
  destruct (rmatch r s [] _) as [[s' g']|] eqn:E; [|done].
  apply rmatch_shrinking in E; [|apply shrinking_final].
  intros H; inversion H; subst. simpl length.
  replace (S (length s) - length s')%nat with (S (length s - length s'))
    by lia.
  simpl. discriminate.
Qed.

(** A greedy run of one-character items. *)
Lemma star_greedy_chr p k : forall fuel s g,
  (length s <= fuel)%nat ->
  star_loop true (rmatch (Chr p)) k fuel s g = greedy_run p k s g.
Proof.
  induction fuel as [|fuel IH]; intros s g Hlen.
  - destruct s; [done|simpl in Hlen; lia].
  - destruct s as [|c t]; simpl; [done|].
    destruct (p c); [|done].
    replace (length t <? S (length t))%nat with true
      by (symmetry; apply Nat.ltb_lt; lia).
    rewrite IH by (simpl in Hlen; lia). done.
Qed.

Lemma rmatch_star_greedy_chr p k s g :
  rmatch (Star true (Chr p)) s g k = greedy_run p k s g.
Proof. simpl. by apply star_greedy_chr. Qed.

(** A lazy run of one-character items. *)
Lemma star_lazy_chr p k : forall fuel s g,
  (length s <= fuel)%nat ->
  star_loop false (rmatch (Chr p)) k fuel s g = lazy_run p k s g.
Proof.
  induction fuel as [|fuel IH]; intros s g Hlen.
  - destruct s; [|simpl in Hlen; lia]. simpl. by rewrite orelse_None_r.
  - destruct s as [|c t]; simpl; [done|].
    destruct (p c); [|done].
    replace (length t <? S (length t))%nat with true
      by (symmetry; apply Nat.ltb_lt; lia).
    rewrite IH by (simpl in Hlen; lia). done.
Qed.

End Matcher.

(* ===================================================================== *)
(** ** [re.sub]: general facts *)
(* ===================================================================== *)

Section Substitution.

Variable r : regex.

Lemma sub_from_nomatch repl c t :
  match_at r (c :: t) = None ->
  sub_from r repl 0 (c :: t) = c :: sub_from r repl 0 t.
Proof. intros H. simpl. by rewrite H. Qed.

(** With a constant replacement the output is made of characters of the
    input and of the replacement. *)
Lemma sub_from_elem (w : pstring) x : forall s skip,
  x ∈ sub_from r (const_repl w) skip s -> x ∈ s \/ x ∈ w.
Proof.
  induction s as [|c t IH]; intros skip H; simpl in H.
  - by left.
  - destruct skip as [|n].
    + destruct (match_at r (c :: t)) as [[[|m0 m] g]|].
      * unfold const_repl in H. apply elem_of_app in H as [H|H]; [by right|].
        apply elem_of_cons in H as [->|H]; [left; by left|].
        apply IH in H as [H|H]; [left; by right|by right].
      * unfold const_repl in H. apply elem_of_app in H as [H|H]; [by right|].
        apply IH in H as [H|H]; [left; by right|by right].
      * apply elem_of_cons in H as [->|H]; [left; by left|].
        apply IH in H as [H|H]; [left; by right|by right].
    + apply IH in H as [H|H]; [left; by right|by right].
Qed.

(** Where the pattern matches nowhere, [re.sub] changes nothing. *)
Lemma sub_no_match repl : forall s,
  search r s = None -> sub r repl s = s.
Proof.
  unfold sub. induction s as [|c t IH]; intros H; [done|].
  simpl in H. destruct (match_at r (c :: t)) eqn:E; [done|].
  rewrite sub_from_nomatch by done. by rewrite IH.
Qed.


End Substitution.

(* ===================================================================== *)
(** ** The patterns of the program *)
(* ===================================================================== *)

Lemma not_gt_true c : c <> 62 -> not_gt c = true.
Proof. intros H. unfold not_gt. by destruct (Z.eqb_spec c 62). Qed.

Lemma then_gt_other k c t g : c <> 62 -> then_gt k (c :: t) g = None.
Proof. intros H. simpl. by destruct (Z.eqb_spec c 62). Qed.

Lemma greedy_not_gt_absent k g : forall s,
  62 ∉ s -> greedy_run not_gt (then_gt k) s g = None.
Proof.
  induction s as [|c t IH]; intros H; [done|].
  apply not_elem_of_cons in H as [Hc Ht].
  cbn [greedy_run]. rewrite not_gt_true, IH, then_gt_other by done. done.
Qed.

Lemma greedy_not_gt_first k g v w :
  62 ∉ v -> greedy_run not_gt (then_gt k) (v ++ 62 :: w) g = k w g.
Proof.
  induction v as [|c t IH]; intros H; [done|].
  apply not_elem_of_cons in H as [Hc Ht].
  cbn [greedy_run app]. rewrite not_gt_true, IH, then_gt_other by done.
  apply orelse_None_r.
Qed.

Lemma anytag_rmatch s k :
  rmatch ANYTAG_RE s [] k =
  match s with
  | c0 :: c :: u =>
      if (c0 =? 60) && not_gt c
      then greedy_run not_gt (then_gt k) u [] else None
  | _ => None
  end.
Proof.
  unfold ANYTAG_RE, plus, lit. cbn [cat foldr].
  change (rmatch (Seq ?a ?b) ?s ?g ?k) with
    (rmatch a s g (fun s1 g1 => rmatch b s1 g1 k)).
  destruct s as [|c0 [|c u]]; cbn [rmatch]; [done| |].
  - by destruct (c0 =? 60).
  - destruct (c0 =? 60); [|done]. simpl andb. destruct (not_gt c); [|done].
    exact (star_greedy_chr not_gt (then_gt k) _ u [] (Nat.le_refl _)).
Qed.

Lemma anytag_match_shape s m g :
  match_at ANYTAG_RE s = Some (m, g) ->
  exists c u, s = 60 :: c :: u /\ c <> 62 /\ 62 ∈ u.
Proof.
  unfold match_at. rewrite anytag_rmatch.
  destruct s as [|c0 [|c u]]; try done.
  destruct (Z.eqb_spec c0 60) as [->|]; [|done]. simpl andb.
  unfold not_gt at 1. destruct (Z.eqb_spec c 62) as [|Hc]; [done|]. simpl negb.
  destruct (decide (62 ∈ u)) as [Hin|Hnot].
  - intros _. by exists c, u.
  - by rewrite greedy_not_gt_absent.
Qed.

Lemma anytag_nomatch_shape c u :
  match_at ANYTAG_RE (60 :: c :: u) = None -> c = 62 \/ 62 ∉ u.
Proof.
  unfold match_at. rewrite anytag_rmatch. simpl andb.
  destruct (Z.eq_dec c 62) as [|Hc]; [by left|].
  rewrite not_gt_true by done.
  destruct (decide (62 ∈ u)) as [Hin|Hnot]; [|by right].
  apply list_elem_of_split_l in Hin as (v & w & -> & Hv).
  by rewrite greedy_not_gt_first.
Qed.

(** None of the four patterns matches the empty string. *)
Lemma anytag_nonempty s g : match_at ANYTAG_RE s <> Some ([], g).
Proof. intros H. by apply match_at_nonempty in H. Qed.

Lemma ws_nonempty s g : match_at WS_RE s <> Some ([], g).
Proof. intros H. by apply match_at_nonempty in H. Qed.

Lemma script_style_nonempty s g : match_at SCRIPT_STYLE_RE s <> Some ([], g).
Proof. intros H. by apply match_at_nonempty in H. Qed.

Lemma tag_nonempty s g : match_at TAG_RE s <> Some ([], g).
Proof. intros H. by apply match_at_nonempty in H. Qed.

Lemma anytag_nomatch_gt t : match_at ANYTAG_RE (62 :: t) = None.
Proof. unfold match_at. rewrite anytag_rmatch. by destruct t. Qed.

Lemma ws_nomatch c t : is_space c = false -> match_at WS_RE (c :: t) = None.
Proof. intros H. unfold match_at, WS_RE, plus. cbn [rmatch]. by rewrite H. Qed.

(* ===================================================================== *)
(** ** Tag-free text *)
(* ===================================================================== *)

Lemma open_ok_nil : open_ok [].
Proof. right. apply not_elem_of_nil. Qed.

Lemma open_ok_sub r t :
  (forall u, match_at r (62 :: u) = None) ->
  open_ok t -> open_ok (sub_from r (const_repl [32]) 0 t).
Proof.
  intros Hr [Hhead|Hnot].
  - destruct t as [|c u]; [done|]. simpl in Hhead. inversion Hhead; subst.
    left. by rewrite sub_from_nomatch.
  - right. intros H. apply sub_from_elem in H as [H|H]; [done|].
    apply list_elem_of_singleton in H. done.
Qed.

Lemma tagfree_sub_anytag : forall s skip,
  tagfree (sub_from ANYTAG_RE (const_repl (py " ")) skip s).
Proof.
  induction s as [|c t IH]; intros skip; [done|].
  destruct skip as [|n]; [|apply IH]. cbn [sub_from].
  destruct (match_at ANYTAG_RE (c :: t)) as [[[|m0 m] g]|] eqn:E.
  - by apply anytag_nonempty in E.
  - change (const_repl (py " ") (m0 :: m) g) with [32]. simpl. split; [done|].
    apply IH.
  - simpl. split; [|apply IH]. intros ->.
    apply (open_ok_sub ANYTAG_RE); [apply anytag_nomatch_gt|].
    destruct t as [|c1 u]; [apply open_ok_nil|].
    apply anytag_nomatch_shape in E as [->|Hu]; [by left|].
    destruct (Z.eq_dec c1 62) as [->|Hc]; [by left|].
    right. by apply not_elem_of_cons.
Qed.

Lemma tagfree_sub_ws : forall s skip,
  tagfree s -> tagfree (sub_from WS_RE (const_repl (py " ")) skip s).
Proof.
  induction s as [|c t IH]; intros skip H; [done|].
  destruct H as [Hc Ht].
  destruct skip as [|n]; [|by apply IH]. cbn [sub_from].
  destruct (match_at WS_RE (c :: t)) as [[[|m0 m] g]|] eqn:E.
  - by apply ws_nonempty in E.
  - change (const_repl (py " ") (m0 :: m) g) with [32]. simpl. split; [done|].
    by apply IH.
  - simpl. split; [|by apply IH]. intros ->.
    apply (open_ok_sub WS_RE); [|by apply Hc].
    intros u. by apply ws_nomatch.
Qed.

Lemma tagfree_lstrip s : tagfree s -> tagfree (lstrip s).
Proof.
  induction s as [|c t IH]; intros H; [done|]. simpl.
  destruct (is_space c); [|done]. apply IH, H.
Qed.

Lemma open_ok_app_l a b : open_ok (a ++ b) -> open_ok a.
Proof.
  intros [H|H].
  - destruct a as [|c a]; [apply open_ok_nil|]. by left.
  - right. intros Ha. apply H, elem_of_app. by left.
Qed.

Lemma tagfree_app_l a b : tagfree (a ++ b) -> tagfree a.
Proof.
  induction a as [|c a IH]; intros H; [done|].
  destruct H as [Hc Ha]. split; [|by apply IH].
  intros ->. by eapply open_ok_app_l, Hc.
Qed.

Lemma lstrip_suffix s : exists w, s = w ++ lstrip s.
Proof.
  induction s as [|c t [w IH]]; [by exists []|]. simpl.
  destruct (is_space c); [|by exists []].
  exists (c :: w). simpl. by rewrite <- IH.
Qed.

Lemma rstrip_prefix s : exists w, s = rstrip s ++ w.
Proof.
  unfold rstrip. destruct (lstrip_suffix (rev s)) as [w Hw].
  exists (rev w). rewrite <- rev_app_distr, <- Hw. by rewrite rev_involutive.
Qed.

Lemma tagfree_strip s : tagfree s -> tagfree (py_strip s).
Proof.
  intros H. unfold py_strip. apply tagfree_lstrip in H.
  destruct (rstrip_prefix (lstrip s)) as [w Hw].
  rewrite Hw in H. by apply tagfree_app_l in H.
Qed.

Lemma tagfree_strip_tags s : tagfree (strip_tags s).
Proof.
  unfold strip_tags, normalize_ws, sub.
  apply tagfree_sub_ws, tagfree_strip, tagfree_sub_anytag.
Qed.

(** Tag-free text holds no [<], some characters other than [>], [>]. *)
Lemma tagfree_no_tag : forall a v w,
  tagfree (a ++ 60 :: v ++ 62 :: w) -> v <> [] -> 62 ∈ v.
Proof.
  induction a as [|c a IH]; intros v w H Hv.
  - destruct H as [Hopen _]. destruct (Hopen eq_refl) as [Hh|Hn].
    + destruct v as [|x v]; [done|]. simpl in Hh. inversion Hh. by left.
    + exfalso. apply Hn, elem_of_app. right. by left.
  - destruct H as [_ H]. by eapply IH.
Qed.

Lemma tagfree_search : forall s, tagfree s -> search ANYTAG_RE s = None.
Proof.
  induction s as [|c t IH]; intros H.
  - cbn [search]. unfold match_at. by rewrite anytag_rmatch.
  - destruct H as [Hc Ht]. cbn [search].
    destruct (match_at ANYTAG_RE (c :: t)) as [[m g]|] eqn:E; [|by apply IH].
    apply anytag_match_shape in E as (c1 & u & Heq & Hc1 & Hu).
    inversion Heq; subst.
    destruct (Hc eq_refl) as [Hh|Hn].
    + simpl in Hh. by inversion Hh.
    + exfalso. apply Hn. by right.
Qed.

(* ===================================================================== *)
(** ** The sanitizer *)
(* ===================================================================== *)


(** C1: on the input [<scr<b>ipt>alert(1)</scr<b>ipt>] the sanitizer of
    [generate_body_html] removes the two [<b>] tags spliced into the names
    and returns [<script>alert(1)</script>]: the output holds a script
    element with its content, and a tag, [script], outside the allow-set. *)
Theorem sanitize_spliced_script :
  sanitize (py "<scr<b>ipt>alert(1)</scr<b>ipt>")
    = py "<script>alert(1)</script>"
  /\ no_script_style (py "<script>alert(1)</script>") = false
  /\ first_tag_name (py "<script>alert(1)</script>") = Some (py "script")
  /\ only_allowed_tags (py "<script>alert(1)</script>") = false.
Proof. vm_compute. done. Qed.




(* ===================================================================== *)
(** ** The teaser *)
(* ===================================================================== *)

(** C7 (as the claim states it, refuted): a summary with an angle bracket
    that opens no tag keeps it. *)
Lemma strip_tags_keeps_stray_bracket :
  strip_tags (py "a < b") = py "a < b" /\ 60 ∈ strip_tags (py "a < b").
Proof. vm_compute. split; [done|]. apply list_elem_of_In. simpl. tauto. Qed.

(** C7 (amended): for every feed summary the teaser holds no tag: the
    pattern of [strip_tags] finds nothing in it, that is, it has no [<]
    followed by one or more characters other than [>] and a [>].  A [<]
    or a [>] that is part of no tag stays. *)
Theorem strip_tags_leaves_no_tag (summary : pstring) :
  search ANYTAG_RE (strip_tags summary) = None
  /\ forall a v w,
       strip_tags summary = a ++ [60] ++ v ++ [62] ++ w ->
       v <> [] -> 62 ∈ v.
Proof.
  split; [apply tagfree_search, tagfree_strip_tags|].
  intros a v w Heq. apply (tagfree_no_tag a v w).
  simpl in Heq. rewrite <- Heq. apply tagfree_strip_tags.
Qed.

(* ===================================================================== *)
(** ** Running the monad *)
(* ===================================================================== *)

Section Running.

Context {A B : Type}.

Lemma bind_Ret (m : M A) (k : A -> M B) st b st' :
  (m ≫= k) st = (Ret b, st') ->
  exists a st1, m st = (Ret a, st1) /\ k a st1 = (Ret b, st').
Proof.
  unfold mbind, M_bind, bind. destruct (m st) as [[a|c|e] st1]; try done.
  intros H. by exists a, st1.
Qed.

Lemma bind_step (m : M A) (k : A -> M B) st a st1 :
  m st = (Ret a, st1) -> (m ≫= k) st = k a st1.
Proof. intros H. unfold mbind, M_bind, bind. by rewrite H. Qed.

Lemma bind_Exit (m : M A) (k : A -> M B) st c st1 :
  m st = (Exit c, st1) -> (m ≫= k) st = (Exit c, st1).
Proof. intros H. unfold mbind, M_bind, bind. by rewrite H. Qed.


Context (Q : fs_rel).

Lemma preserves_bind `{!Transitive Q} (m : M A) (k : A -> M B) :
  preserves Q m -> (forall a, preserves Q (k a)) -> preserves Q (m ≫= k).
Proof.
  intros Hm Hk st. specialize (Hm st).
  unfold mbind, M_bind, bind. destruct (m st) as [[a|c|e] st1]; try done.
  simpl in Hm. etrans; [exact Hm|apply Hk].
Qed.

Lemma preserves_try `{!Transitive Q} (m : M A) (h : exn -> M A) :
  preserves Q m -> (forall e, preserves Q (h e)) -> preserves Q (try_except m h).
Proof.
  intros Hm Hh st. specialize (Hm st).
  unfold try_except. destruct (m st) as [[a|c|e] st1]; try done.
  simpl in Hm. etrans; [exact Hm|apply Hh].
Qed.




End Running.

Section Preserving.

Context {A : Type} (Q : fs_rel) `{!Reflexive Q}.

Lemma preserves_ret (a : A) : preserves Q (ret a).
Proof. intros st. simpl. reflexivity. Qed.

Lemma preserves_raise (e : exn) : preserves Q (@raise A e).
Proof. intros st. simpl. reflexivity. Qed.

Lemma preserves_exit (c : Z) : preserves Q (@sys_exit A c).
Proof. intros st. simpl. reflexivity. Qed.

Lemma preserves_lift (o : outcome A) : preserves Q (lift o).
Proof. intros st. simpl. reflexivity. Qed.

Lemma preserves_emit (ev : event) : preserves Q (emit ev).
Proof. intros st. simpl. reflexivity. Qed.

Lemma preserves_get_fs : preserves Q get_fs.
Proof. intros st. simpl. reflexivity. Qed.

End Preserving.

#[local] Instance same_at_preorder p : PreOrder (same_at p).
Proof.
  split; [by intros f|]. intros f g h H1 H2. unfold same_at in *. congruence.
Qed.

#[local] Instance keeps_file_preorder p x : PreOrder (keeps_file p x).
Proof.
  split; [intros f H; exact H|]. intros f g h H1 H2 H. by apply H2, H1.
Qed.

(** Decompose a goal [preserves Q m] along the structure of [m]. *)
Ltac pres_step :=
  first
    [ apply preserves_ret; apply _
    | apply preserves_raise; apply _
    | apply preserves_exit; apply _
    | apply preserves_lift; apply _
    | apply preserves_emit; apply _
    | apply preserves_get_fs; apply _
    | apply preserves_bind; [apply _| |intros ?]
    | apply preserves_try; [apply _| |intros ?]
    | match goal with
      | |- preserves _ (match ?x with _ => _ end) => destruct x
      end ].

Ltac pres := repeat pres_step.

(** The same, with [tac] for the writes. *)
Ltac pres_fs tac :=
  repeat first
    [ lazymatch goal with
      | |- preserves _ (write_text _ _) => tac
      end
    | lazymatch goal with
      | |- preserves _ (write_text _ _) => fail
      | |- _ => pres_step
      end ].

Section PureSteps.

Context (Q : fs_rel) `{!PreOrder Q}.

Lemma preserves_die {A} msg code : preserves Q (@die A msg code).
Proof. unfold die. pres. Qed.

Lemma preserves_print msg : preserves Q (print msg).
Proof. unfold print. pres. Qed.

Lemma preserves_path_exists p : preserves Q (path_exists p).
Proof. unfold path_exists. pres. Qed.

Lemma preserves_read_text p : preserves Q (read_text p).
Proof. unfold read_text. pres. Qed.

Lemma preserves_read_json E p : preserves Q (read_json E p).
Proof. unfold read_json. pres. Qed.

End PureSteps.

(* ===================================================================== *)
(** ** Writing files *)
(* ===================================================================== *)

Lemma ancestors_from_split : forall rest seen d,
  d ∈ ancestors_from seen rest -> exists t, seen ++ rest = d ++ 47 :: t.
Proof.
  induction rest as [|c rest IH]; intros seen d H; simpl in H.
  - by apply elem_of_nil in H.
  - destruct (Z.eqb_spec c 47) as [->|_].
    + apply elem_of_cons in H as [->|H]; [by exists rest|].
      apply IH in H as [t Ht]. exists t. by rewrite <- Ht, <- app_assoc.
    + apply IH in H as [t Ht]. exists t. by rewrite <- Ht, <- app_assoc.
Qed.

(** A directory above a path is a prefix of it. *)
Lemma ancestors_split d q : d ∈ ancestors q -> exists t, q = d ++ 47 :: t.
Proof. intros H. by apply ancestors_from_split in H. Qed.

(** Paths that begin with different characters are apart. *)
Lemma head_ne_path (p q : pstring) : head p <> head q -> p <> q.
Proof. congruence. Qed.

Lemma head_ne_ancestor (p q : pstring) a :
  head p = Some a -> head q <> Some a -> p ∉ ancestors q.
Proof.
  intros Hp Hq Hin. apply ancestors_split in Hin as [t ->].
  destruct p; [done|]. simpl in *. congruence.
Qed.

Lemma mkdir1_same_at p d : p <> d -> preserves (same_at p) (mkdir1 d).
Proof.
  intros Hne st. unfold mkdir1, mbind, M_bind, bind, get_fs. simpl.
  destruct (fs st !! d) as [[]|] eqn:E; simpl; unfold same_at; try done.
  by rewrite lookup_insert_ne.
Qed.

Lemma mkdir1_keeps p x d : preserves (keeps_file p x) (mkdir1 d).
Proof.
  intros st. unfold mkdir1, mbind, M_bind, bind, get_fs. simpl.
  destruct (fs st !! d) as [[]|] eqn:E; simpl; unfold keeps_file; try done.
  intros H. destruct (decide (d = p)) as [->|Hne]; [congruence|].
  by rewrite lookup_insert_ne.
Qed.

Lemma mkdirs_same_at p ds : p ∉ ds -> preserves (same_at p) (mkdirs ds).
Proof.
  induction ds as [|d ds IH]; intros H; simpl.
  - apply preserves_ret, _.
  - apply not_elem_of_cons in H as [Hd Hds].
    apply preserves_bind; [apply _|by apply mkdir1_same_at|intros _; by apply IH].
Qed.

Lemma mkdirs_keeps p x ds : preserves (keeps_file p x) (mkdirs ds).
Proof.
  induction ds as [|d ds IH]; simpl.
  - apply preserves_ret, _.
  - apply preserves_bind; [apply _|apply mkdir1_keeps|intros _; apply IH].
Qed.

Lemma put_file_same_at p q s :
  p <> q ->
  preserves (same_at p)
    (f ← get_fs;
     match f !! q with
     | Some Dir => raise OSError
     | _ => put_fs (<[q := File s]> f);; emit (EvWrite q s)
     end).
Proof.
  intros Hne st. unfold mbind, M_bind, bind, get_fs. simpl.
  destruct (fs st !! q) as [[]|] eqn:E; simpl; unfold same_at; try done;
    by rewrite lookup_insert_ne.
Qed.

Lemma put_file_keeps p x q s :
  p <> q ->
  preserves (keeps_file p x)
    (f ← get_fs;
     match f !! q with
     | Some Dir => raise OSError
     | _ => put_fs (<[q := File s]> f);; emit (EvWrite q s)
     end).
Proof.
  intros Hne st. unfold mbind, M_bind, bind, get_fs. simpl.
  destruct (fs st !! q) as [[]|] eqn:E; simpl; unfold keeps_file; try done;
    by rewrite lookup_insert_ne.
Qed.

(** Writing [q] leaves every entry that is neither [q] nor above it. *)
Lemma write_text_same_at p q s :
  p <> q -> p ∉ ancestors q -> preserves (same_at p) (write_text q s).
Proof.
  intros Hne Hanc. unfold write_text.
  apply preserves_bind; [apply _|by apply mkdirs_same_at|intros _].
  by apply put_file_same_at.
Qed.

(** Writing [q] keeps every other file. *)
Lemma write_text_keeps p x q s :
  p <> q -> preserves (keeps_file p x) (write_text q s).
Proof.
  intros Hne. unfold write_text.
  apply preserves_bind; [apply _|by apply mkdirs_keeps|intros _].
  by apply put_file_keeps.
Qed.

(** After [write_text] returns, the file holds the text. *)
Lemma write_text_Ret q s st u st' :
  write_text q s st = (Ret u, st') -> fs st' !! q = Some (File s).
Proof.
  unfold write_text. intros H. apply bind_Ret in H as (_ & st1 & _ & H).
  unfold mbind, M_bind, bind, get_fs in H. simpl in H.
  destruct (fs st1 !! q) as [[]|] eqn:E; simpl in H; inversion H; subst;
    simpl; by rewrite lookup_insert_eq.
Qed.


(** Paths that differ in their first character. *)
Ltac path_apart :=
  first
    [ apply head_ne_path; unfold post_rel_of; simpl; discriminate
    | eapply head_ne_ancestor;
        [unfold post_rel_of; simpl; reflexivity
        |unfold post_rel_of; simpl; discriminate] ].

Ltac write_apart :=
  first
    [ apply write_text_keeps; path_apart
    | apply write_text_same_at; path_apart ].

Lemma preserves_run {A} Q (m : M A) st o st' :
  preserves Q m -> m st = (o, st') -> Q (fs st) (fs st').
Proof. intros H Hm. specialize (H st). by rewrite Hm in H. Qed.

(* ===================================================================== *)
(** ** The stages and the directory *)
(* ===================================================================== *)

Section Stages.

Variable E : Env.

Section Pure.

Context (Q : fs_rel) `{!PreOrder Q}.

(** The stages before [copy_assets] write nothing. *)
Lemma check_lite_lock_pure : preserves Q (check_lite_lock E).
Proof. unfold check_lite_lock. pres. Qed.

Lemma load_config_pure : preserves Q (load_config E).
Proof. unfold load_config. pres. Qed.

Lemma fetch_latest_item_pure url : preserves Q (fetch_latest_item E url).
Proof. unfold fetch_latest_item. pres. Qed.

Lemma generate_body_html_pure cfg item :
  preserves Q (generate_body_html E cfg item).
Proof. unfold generate_body_html. pres. Qed.

Lemma selftest_pure : preserves Q selftest.
Proof. unfold selftest. pres. Qed.

Lemma jinja_env_pure : preserves Q (jinja_env E).
Proof. unfold jinja_env. pres. Qed.

Lemma get_template_pure name : preserves Q (get_template name).
Proof. unfold get_template. pres. Qed.

Lemma render_pure src kw : preserves Q (render E src kw).
Proof. unfold render. pres. Qed.

End Pure.



(** What [render_site] has written when it returns. *)
Lemma render_site_Ret cfg item body st r st' :
  render_site E cfg item body st = (Ret r, st') ->
  r = (post_rel_of E item, post_url_of E cfg item)
  /\ (exists x, fs st' !! py "index.html" = Some (File x))
  /\ (exists x, fs st' !! post_rel_of E item = Some (File x))
  /\ fs st' !! py "robots.txt"
       = Some (File (build_robots (base_url (site cfg))))
  /\ fs st' !! py "sitemap.xml"
       = Some (File (build_sitemap (sitemap_urls E cfg item))).
Proof.
  unfold render_site. intros H.
  apply bind_Ret in H as (_ & s1 & _ & H).
  apply bind_Ret in H as (tpl & s2 & _ & H).
  apply bind_Ret in H as (index_html & s3 & _ & H).
  apply bind_Ret in H as (? & s4 & Hindex & H).
  apply write_text_Ret in Hindex.
  assert (Hi : fs st' !! py "index.html" = Some (File index_html)).
  { eapply (preserves_run (keeps_file (py "index.html") index_html));
      [|exact H|exact Hindex]. pres_fs write_apart. }
  apply bind_Ret in H as (tpl2 & s5 & _ & H).
  apply bind_Ret in H as (post_html & s6 & _ & H).
  apply bind_Ret in H as (? & s7 & Hpost & H).
  apply write_text_Ret in Hpost.
  assert (Hp : fs st' !! post_rel_of E item = Some (File post_html)).
  { eapply (preserves_run (keeps_file (post_rel_of E item) post_html));
      [|exact H|exact Hpost]. pres_fs write_apart. }
  apply bind_Ret in H as (? & s8 & Hrobots & H).
  apply write_text_Ret in Hrobots.
  assert (Hr : fs st' !! py "robots.txt"
               = Some (File (build_robots (base_url (site cfg))))).
  { eapply (preserves_run (keeps_file (py "robots.txt") _));
      [|exact H|exact Hrobots]. pres_fs write_apart. }
  apply bind_Ret in H as (? & s9 & Hsitemap & H).
  apply write_text_Ret in Hsitemap.
  inversion H; subst. eauto 10.
Qed.

(** [write_lite_lock] writes the marker and nothing else. *)
Lemma write_lite_lock_Ret url st u st' :
  write_lite_lock E url st = (Ret u, st') ->
  (exists x, fs st' !! LITE_LOCK_PATH = Some (File x))
  /\ forall p x, p <> LITE_LOCK_PATH ->
       fs st !! p = Some (File x) -> fs st' !! p = Some (File x).
Proof.
  unfold write_lite_lock. intros H. split.
  - apply write_text_Ret in H. eauto.
  - intros p x Hne. eapply (preserves_run (keeps_file p x)); [|exact H].
    by apply write_text_keeps.
Qed.


End Stages.

(* ===================================================================== *)
(** ** The run lock *)
(* ===================================================================== *)

Section Runs.

Variable E : Env.

Lemma path_exists_run p st :
  path_exists p st
  = (Ret (bool_decide (is_Some (fs st !! p))),
     {| fs := fs st; trace := trace st ++ [EvStat p] |}).
Proof. reflexivity. Qed.

(** Reading the marker never fails the run: an unreadable or corrupt marker
    counts as an empty one. *)
Lemma read_lock_run st :
  exists data,
    try_except (read_json E LITE_LOCK_PATH) (fun _ => ret (PDict [])) st
    = (Ret data,
       {| fs := fs st; trace := trace st ++ [EvRead LITE_LOCK_PATH] |}).
Proof.
  unfold try_except, read_json, read_text, mbind, M_bind, bind, emit, get_fs,
    lift, ret, raise. simpl.
  destruct (fs st !! LITE_LOCK_PATH) as [[|text|]|]; simpl; eauto.
  destruct (json_loads E text); simpl; eauto.
Qed.

Lemma check_lite_lock_locked st :
  is_Some (fs st !! LITE_LOCK_PATH) ->
  exists msg,
    check_lite_lock E st
    = (Exit 0,
       {| fs := fs st;
          trace := trace st ++ [EvStat LITE_LOCK_PATH; EvRead LITE_LOCK_PATH;
                                EvStdout msg] |}).
Proof.
  intros Hlock. unfold check_lite_lock.
  erewrite bind_step by apply path_exists_run.
  rewrite bool_decide_eq_true_2 by done.
  destruct (read_lock_run
              {| fs := fs st; trace := trace st ++ [EvStat LITE_LOCK_PATH] |})
    as [data Hdata].
  erewrite bind_step by exact Hdata.
  exists (lock_message E data).
  unfold print, sys_exit, emit, mbind, M_bind, bind. simpl.
  by rewrite <- !app_assoc.
Qed.


(* ===================================================================== *)
(** ** Artifacts and lock *)
(* ===================================================================== *)

Lemma print_run msg st :
  print msg st
  = (Ret tt, {| fs := fs st; trace := trace st ++ [EvStdout msg] |}).
Proof. reflexivity. Qed.

Lemma print_returns msg : returns (print msg).
Proof. intros st. by exists tt. Qed.

(** What a run of the pipeline that returns went through. *)
Lemma pipeline_Ret st u st' :
  pipeline E st = (Ret u, st') ->
  exists cfg item body s1 s2 s3 s4 s5 s6,
    load_config E s1 = (Ret cfg, s2)
    /\ fetch_latest_item E (rss_url cfg) s2 = (Ret item, s3)
    /\ generate_body_html E cfg item s3 = (Ret body, s4)
    /\ render_site E cfg item body s5
       = (Ret (post_rel_of E item, post_url_of E cfg item), s6)
    /\ (exists x, fs st' !! LITE_LOCK_PATH = Some (File x))
    /\ forall p x, p <> LITE_LOCK_PATH ->
         fs s6 !! p = Some (File x) -> fs st' !! p = Some (File x).
Proof.
  unfold pipeline. intros H.
  apply bind_Ret in H as (_ & s1 & _ & H).
  apply bind_Ret in H as (cfg & s2 & Hcfg & H).
  apply bind_Ret in H as (item & s3 & Hitem & H).
  apply bind_Ret in H as (body & s4 & Hbody & H).
  apply bind_Ret in H as (_ & s5 & _ & H).
  apply bind_Ret in H as ([rel url] & s6 & Hrender & H).
  apply bind_Ret in H as (? & s7 & Hlock & H).
  pose proof (render_site_Ret E _ _ _ _ _ _ Hrender) as (Hr & _).
  inversion Hr; subst.
  apply write_lite_lock_Ret in Hlock as [Hmarker Hkeep].
  rewrite !bind_step with (a := tt) (st1 := _) in H by apply print_run.
  rewrite print_run in H. inversion H; subst st'. simpl.
  exists cfg, item, body, s1, s2, s3, s4, s5, s6. eauto 10.
Qed.



End Runs.






(* ===================================================================== *)
(** ** The config validator *)
(* ===================================================================== *)

Lemma guard_Ret (b : bool) msg code st u st' :
  (if b then ret tt else die msg code) st = (Ret u, st') ->
  b = true /\ st' = st.
Proof. destruct b; [|done]. intros H. by inversion H. Qed.

Lemma lift_Ret {A} (o : outcome A) st a st' :
  lift o st = (Ret a, st') -> o = Ret a /\ st' = st.
Proof. unfold lift. intros H. by inversion H. Qed.

Lemma lstrip_char_head x s : startswith [x] (lstrip_char x s) = false.
Proof.
  induction s as [|c t IH]; [done|]. simpl.
  destruct (Z.eqb_spec c x) as [->|Hne]; [done|]. simpl.
  destruct (Z.eqb_spec x c); [congruence|done].
Qed.

(** What [s.rstrip(x)] returns does not end with [x]. *)
Lemma rstrip_char_end x s : endswith [x] (rstrip_char x s) = false.
Proof.
  unfold endswith, rstrip_char. rewrite rev_involutive.
  apply lstrip_char_head.
Qed.

(** The configuration [load_config] returns: the required fields are not
    empty, and [base_url] starts with a scheme and has no slash at its
    end. *)
Lemma load_config_Ret E st cfg st' :
  load_config E st = (Ret cfg, st') ->
  title (site cfg) <> [] /\ description (site cfg) <> []
  /\ base_url (site cfg) <> [] /\ rss_url cfg <> []
  /\ contact_email cfg <> []
  /\ startswith (py "http://") (base_url (site cfg))
     || startswith (py "https://") (base_url (site cfg)) = true
  /\ endswith (py "/") (base_url (site cfg)) = false.
Proof.
  unfold load_config. intros H.
  apply bind_Ret in H as (? & ? & _ & H).
  apply bind_Ret in H as (? & ? & _ & H).
  apply bind_Ret in H as (doc & ? & _ & H).
  apply bind_Ret in H as (site_v & ? & _ & H).
  apply bind_Ret in H as (title_v & ? & _ & H).
  apply bind_Ret in H as (desc_v & ? & _ & H).
  apply bind_Ret in H as (base_v & ? & _ & H).
  apply bind_Ret in H as (rss_v & ? & _ & H).
  apply bind_Ret in H as (gen_v & ? & _ & H).
  apply bind_Ret in H as (model_v & ? & _ & H).
  apply bind_Ret in H as (temp_v & ? & _ & H).
  apply bind_Ret in H as (temp & ? & _ & H).
  apply bind_Ret in H as (max_v & ? & _ & H).
  apply bind_Ret in H as (maxt & ? & _ & H).
  apply bind_Ret in H as (email_v & ? & _ & H).
  apply bind_Ret in H as (? & ? & Hmissing & H).
  apply bind_Ret in H as (? & ? & Hscheme & H).
  apply guard_Ret in Hmissing as [Hmissing _].
  apply guard_Ret in Hscheme as [Hscheme _].
  inversion H; subst cfg; simpl.
  apply bool_decide_eq_true in Hmissing. unfold missing_fields in Hmissing.
  repeat match type of Hmissing with
         | context [bool_decide (?s = [])] =>
             destruct (bool_decide_reflect (s = [])); [done|]
         end.
  repeat split; try done. apply rstrip_char_end.
Qed.

(* ===================================================================== *)
(** ** The sitemap *)
(* ===================================================================== *)



(* ===================================================================== *)
(** ** The content generator *)
(* ===================================================================== *)


(** With an API key in the environment and a reply of status 200 whose
    document holds a text at [choices[0].message.content],
    [generate_body_html] returns. *)
Lemma generate_body_html_returns E cfg item st key text data out :
  getenv E (py "DEEPSEEK_API_KEY") = Some key ->
  py_strip key <> [] ->
  (forall payload,
     requests_post E DEEPSEEK_URL (py_strip key) payload
     = HttpResponse 200 text) ->
  json_loads E text = Some data ->
  response_content data ≫= content_text = Some out ->
  exists st',
    generate_body_html E cfg item st = (Ret (body_of_response out), st').
Proof.
  intros Hkey Hne Hpost Hjson Hout.
  unfold generate_body_html, deepseek_chat. rewrite Hkey. simpl default.
  rewrite bool_decide_eq_false_2 by done. rewrite Hpost.
  unfold mbind at 1 2 3 4 5 6, M_bind, bind, emit, ret, lift. simpl.
  rewrite Hjson. simpl. rewrite Hout. simpl. eauto.
Qed.



(* ===================================================================== *)
(** ** The feed reader *)
(* ===================================================================== *)

(** C6 (as the claim states it, refuted): a first entry with a title and
    no link is none of the three cases of the claim, and the feed reader
    fails on it with exit code 4. *)
Lemma fetch_title_without_link_fails :
  entry_title Demo.no_link_env
    (Demo.entry_of [(py "title", PStr (py "Hello World"))])
  = py "Hello World"
  /\ claimed_feed_error Demo.no_link_env (py "https://src.example/feed.xml")
     = false
  /\ (fetch_latest_item Demo.no_link_env (py "https://src.example/feed.xml")
        Demo.start).1
     = Exit 4.
Proof. by vm_compute. Qed.

(** C6 (amended): the feed reader fails exactly when the HTTP GET raises
    or answers with a 4xx or 5xx status, or the parsed feed has zero
    entries, or the first entry lacks a title or lacks a link (either one,
    after trimming).  The first two cases end in an exception of the HTTP
    library, the others in exit code 4; an item that is returned has a
    title and a link. *)
Theorem fetch_fails_exactly_when (E : Env) (url : pstring) (st : state) :
  (feed_error E url = true <-> fails (fetch_latest_item E url st).1)
  /\ match (fetch_latest_item E url st).1 with
     | Ret item => item_title item <> [] /\ item_link item <> []
     | Exit code => code = 4
     | Raise e => e = RequestException \/ e = HTTPError
     end.
Proof.
  unfold feed_error, fails, fetch_latest_item, entry_title, entry_link.
  unfold mbind, M_bind, bind, emit, die, raise, ret, sys_exit. simpl.
  destruct (requests_get E url) as [|status text]; simpl.
  { split; [|by left]. split; [done|]. by intros _. }
  destruct (is_error_status status); simpl.
  { split; [|by right]. split; [done|]. by intros _. }
  destruct (feedparser_parse E text) as [|e rest]; simpl.
  { split; [|done]. split; [done|]. by intros _. }
  destruct (bool_decide_reflect (str_field E (entry_get e "title") = []))
    as [Ht|Ht]; simpl.
  { split; [|done]. split; [done|]. by intros _. }
  destruct (bool_decide_reflect (str_field E (entry_get e "link") = []))
    as [Hl|Hl]; simpl.
  { split; [|done]. split; [done|]. by intros _. }
  split; [|done]. split; [done|]. intros H. by destruct (H _ eq_refl).
Qed.

(* ===================================================================== *)
(** ** Missing fields *)
(* ===================================================================== *)

Lemma join_names sep name : forall l, name ∈ l -> names (join sep l) name.
Proof.
  induction l as [|p rest IH]; intros H; [by apply elem_of_nil in H|].
  destruct rest as [|q rest].
  - apply list_elem_of_singleton in H as ->. exists [], []. simpl.
    by rewrite app_nil_r.
  - apply elem_of_cons in H as [->|H].
    + exists [], (sep ++ join sep (q :: rest)). done.
    + destruct (IH H) as (a & b & Hab). exists (p ++ sep ++ a), b.
      change (join sep (p :: q :: rest)) with (p ++ sep ++ join sep (q :: rest)).
      rewrite Hab. by rewrite <- !app_assoc.
Qed.

Lemma names_prefix pre msg name : names msg name -> names (pre ++ msg) name.
Proof.
  intros (a & b & ->). exists (pre ++ a), b. by rewrite <- app_assoc.
Qed.

Lemma read_json_run E p text v st :
  fs st !! p = Some (File text) ->
  json_loads E text = Some v ->
  read_json E p st
  = (Ret v, {| fs := fs st; trace := trace st ++ [EvRead p] |}).
Proof.
  intros Hfile Hjson.
  unfold read_json, read_text, mbind, M_bind, bind, emit, get_fs, lift, ret.
  simpl. rewrite Hfile. simpl. by rewrite Hjson.
Qed.

(** One step of a run whose first computation is known to return. *)
Ltac run_step tac :=
  erewrite bind_step by tac; cbv beta zeta.

Ltac run_pure := run_step ltac:(reflexivity).

(** C5 (as the claim states it, refuted): in a configuration document whose
    [site] is a string, [site.title] is missing, and [load_config] ends in
    an [AttributeError] before it checks the required fields: nothing is
    printed, so no message names the missing fields. *)
Lemma load_config_hides_missing_fields :
  json_loads Demo.site_string_env (py "CONFIG")
  = Some (Demo.config_with (PStr (py "My Blog")) (PDict []))
  /\ doc_field (Demo.config_with (PStr (py "My Blog")) (PDict []))
       ["site"; "title"]%string = None
  /\ (load_config Demo.site_string_env Demo.start).1 = Raise AttributeError
  /\ trace (load_config Demo.site_string_env Demo.start).2
     = [EvStat CONFIG_PATH; EvRead CONFIG_PATH].
Proof. by vm_compute. Qed.

(** C5 (amended): for every configuration document that is an object whose
    [site] and [generation] entries are objects (or absent, or false) and
    whose [temperature] and [max_tokens] convert to numbers, if one or more
    of the required fields ([site.title], [site.description],
    [site.base_url], [rss_url], [contact_email]) is missing or empty after
    trimming, [load_config] ends with exit code 2 after printing one
    message, which lists every missing field and so names each of them. *)
Theorem load_config_names_every_missing_field
    (E : Env) (st : state) (text : pstring) (d sd gd : list (pstring * pyval))
    (t : pstring) (n : Z) :
  fs st !! CONFIG_PATH = Some (File text) ->
  json_loads E text = Some (PDict d) ->
  py_or (dict_get d (py "site")) (PDict []) = PDict sd ->
  py_or (dict_get d (py "generation")) (PDict []) = PDict gd ->
  py_float E (if_not_none (dict_get gd (py "temperature")) (PFloat (py "0.7")))
  = Ret t ->
  py_int E (if_not_none (dict_get gd (py "max_tokens")) (PInt 2200)) = Ret n ->
  config_missing E sd d <> [] ->
  exists msg,
    load_config E st
    = (Exit 2,
       {| fs := fs st;
          trace := trace st ++ [EvStat CONFIG_PATH; EvRead CONFIG_PATH;
                                EvStderr msg] |})
    /\ msg = py "Missing required config fields: "
             ++ join (py ", ") (config_missing E sd d)
    /\ (str_field E (dict_get sd (py "title")) = [] ->
        names msg (py "site.title"))
    /\ (str_field E (dict_get sd (py "description")) = [] ->
        names msg (py "site.description"))
    /\ (rstrip_char 47 (str_field E (dict_get sd (py "base_url"))) = [] ->
        names msg (py "site.base_url"))
    /\ (str_field E (dict_get d (py "rss_url")) = [] ->
        names msg (py "rss_url"))
    /\ (str_field E (dict_get d (py "contact_email")) = [] ->
        names msg (py "contact_email")).
Proof.
  intros Hfile Hjson Hsite Hgen Htemp Hmax Hmissing.
  eexists. split; [|split; [reflexivity|]].
  - unfold load_config.
    run_step ltac:(apply path_exists_run).
    rewrite bool_decide_eq_true_2 by (simpl; rewrite Hfile; eauto).
    run_pure.
    run_step ltac:(eapply read_json_run; [simpl; exact Hfile|exact Hjson]).
    run_pure. rewrite Hsite.
    run_pure. run_pure. run_pure.
    run_pure. run_pure. rewrite Hgen.
    run_pure. run_pure.
    rewrite Htemp. run_pure.
    run_pure. rewrite Hmax. run_pure.
    run_pure.
    fold (config_missing E sd d).
    rewrite bool_decide_eq_false_2 by done.
    unfold die, sys_exit, emit, mbind, M_bind, bind. simpl.
    by rewrite <- !app_assoc.
  - unfold config_missing, missing_fields.
    repeat split; intros H; apply names_prefix, join_names; rewrite H;
      rewrite (bool_decide_eq_true_2 (@nil Z = [])) by done;
      rewrite !elem_of_app, !elem_of_cons; tauto.
Qed.

(** A configuration with a title and a blank [rss_url]: the message names the
    four other fields. *)
Lemma load_config_names_every_missing_field_witness :
  load_config Demo.incomplete_env Demo.start
  = (Exit 2,
     {| fs := Demo.files;
        trace := [EvStat CONFIG_PATH; EvRead CONFIG_PATH;
                  EvStderr (py "Missing required config fields: site.description, site.base_url, rss_url, contact_email")] |})
  /\ exists msg,
    load_config Demo.incomplete_env Demo.start
    = (Exit 2,
       {| fs := fs Demo.start;
          trace := trace Demo.start ++ [EvStat CONFIG_PATH; EvRead CONFIG_PATH;
                                        EvStderr msg] |})
    /\ msg = py "Missing required config fields: "
             ++ join (py ", ")
                  (config_missing Demo.incomplete_env
                     [(py "title", PStr (py "Example"))]
                     [(py "site", PDict [(py "title", PStr (py "Example"))]);
                      (py "rss_url", PStr (py "   "))])
    /\ (str_field Demo.incomplete_env
          (dict_get [(py "title", PStr (py "Example"))] (py "title")) = [] ->
        names msg (py "site.title"))
    /\ (str_field Demo.incomplete_env
          (dict_get [(py "title", PStr (py "Example"))] (py "description"))
        = [] ->
        names msg (py "site.description"))
    /\ (rstrip_char 47
          (str_field Demo.incomplete_env
             (dict_get [(py "title", PStr (py "Example"))] (py "base_url")))
        = [] ->
        names msg (py "site.base_url"))
    /\ (str_field Demo.incomplete_env
          (dict_get [(py "site", PDict [(py "title", PStr (py "Example"))]);
                     (py "rss_url", PStr (py "   "))] (py "rss_url")) = [] ->
        names msg (py "rss_url"))
    /\ (str_field Demo.incomplete_env
          (dict_get [(py "site", PDict [(py "title", PStr (py "Example"))]);
                     (py "rss_url", PStr (py "   "))] (py "contact_email"))
        = [] ->
        names msg (py "contact_email")).
Proof.
  split; [by vm_compute|].
  apply (load_config_names_every_missing_field Demo.incomplete_env Demo.start
           (py "CONFIG") _ _ [] (py "0.7") 2200); by vm_compute.
Defined.

(** The model a run uses: the default for a missing or empty
    [generation.model], the trimmed text otherwise. *)
Lemma model_field_default E v :
  truthy v = false -> model_field E v = py "deepseek-chat".
Proof. intros H. unfold model_field, py_or. rewrite H. by vm_compute. Qed.

(** C10: with [generation.model] set to three spaces in an otherwise valid
    configuration, [load_config] succeeds and the model it returns is the
    empty string, not the default [deepseek-chat]: the default is taken
    before the value is trimmed.  The other parts of the claim hold
    ([model_field_default], [load_config_Ret]). *)
Theorem load_config_blank_model :
  json_loads Demo.blank_model_env (py "CONFIG")
  = Some (Demo.config_with Demo.site_doc
            (PDict [(py "model", PStr (py "   "))]))
  /\ exists cfg,
       (load_config Demo.blank_model_env Demo.start).1 = Ret cfg
       /\ model (generation cfg) = []
       /\ model (generation cfg) <> py "deepseek-chat".
Proof.
  split; [by vm_compute|].
  eexists. split; [by vm_compute|]. split; by vm_compute.
Qed.

(* ===================================================================== *)
(** ** White space *)
(* ===================================================================== *)

Lemma ws_run_le s : (ws_run s <= length s)%nat.
Proof. induction s as [|c t IH]; simpl; [lia|]. destruct (is_space c); simpl; lia. Qed.

Lemma greedy_ws_final g : forall s,
  greedy_run is_space (fun s' g' => Some (s', g')) s g
  = Some (drop (ws_run s) s, g).
Proof.
  induction s as [|c t IH]; [done|]. simpl.
  destruct (is_space c); [|done]. by rewrite IH.
Qed.

(** At a white-space character the pattern of [normalize_ws] matches the
    whole run of white space. *)
Lemma ws_match_at c t :
  is_space c = true ->
  match_at WS_RE (c :: t) = Some (c :: take (ws_run t) t, []).
Proof.
  intros Hc. unfold match_at, WS_RE, plus. cbn [rmatch]. rewrite Hc.
  rewrite (star_greedy_chr is_space _ _ t [] (Nat.le_refl _)).
  rewrite greedy_ws_final. f_equal. f_equal.
  pose proof (ws_run_le t) as Hle. rewrite length_drop. simpl length.
  replace (S (length t) - (length t - ws_run t))%nat with (S (ws_run t))
    by lia.
  done.
Qed.

(** [re.sub] with the white-space pattern is [collapse]. *)
Lemma sub_ws_collapse : forall s,
  sub_from WS_RE (const_repl (py " ")) 0 s = collapse false s
  /\ sub_from WS_RE (const_repl (py " ")) (ws_run s) s = collapse true s.
Proof.
  induction s as [|c t [IH0 IH1]]; [done|]. cbn [sub_from ws_run collapse].
  destruct (is_space c) eqn:Hc.
  - rewrite (ws_match_at c t Hc). simpl length.
    replace (S (length (take (ws_run t) t)) - 1)%nat with (ws_run t)
      by (rewrite length_take; pose proof (ws_run_le t); lia).
    rewrite IH1. done.
  - rewrite (ws_nomatch c t Hc). by rewrite IH0.
Qed.

Lemma normalize_ws_collapse s : normalize_ws s = collapse false (py_strip s).
Proof. unfold normalize_ws, sub. apply sub_ws_collapse. Qed.

Lemma last_rev (s : pstring) : last (rev s) = head s.
Proof. destruct s as [|c t]; [done|]. simpl. apply last_snoc. Qed.

Lemma head_rev (s : pstring) : head (rev s) = last s.
Proof. by rewrite <- (rev_involutive s) at 2; rewrite last_rev. Qed.

Lemma lstrip_head s c : head (lstrip s) = Some c -> is_space c = false.
Proof.
  induction s as [|d t IH]; [done|]. simpl.
  destruct (is_space d) eqn:Hd; [done|]. simpl. congruence.
Qed.

Lemma lstrip_id s :
  (forall c, head s = Some c -> is_space c = false) -> lstrip s = s.
Proof.
  destruct s as [|c t]; [done|]. intros H. simpl. by rewrite (H c).
Qed.

(** What [strip] returns has no white space at its ends. *)
Lemma py_strip_last s c : last (py_strip s) = Some c -> is_space c = false.
Proof. unfold py_strip, rstrip. rewrite last_rev. apply lstrip_head. Qed.

Lemma py_strip_head s c : head (py_strip s) = Some c -> is_space c = false.
Proof.
  unfold py_strip. destruct (rstrip_prefix (lstrip s)) as [w Hw].
  intros H. apply (lstrip_head s). rewrite Hw.
  destruct (rstrip (lstrip s)); [done|]. done.
Qed.

Lemma py_strip_id s :
  (forall c, head s = Some c -> is_space c = false) ->
  (forall c, last s = Some c -> is_space c = false) ->
  py_strip s = s.
Proof.
  intros Hh Hl. unfold py_strip, rstrip. rewrite (lstrip_id s Hh).
  rewrite lstrip_id; [apply rev_involutive|].
  intros c. rewrite head_rev. apply Hl.
Qed.

Lemma last_cons_cons (c d : Z) (r : pstring) : last (c :: d :: r) = last (d :: r).
Proof. done. Qed.

Lemma collapse_true_head : forall s,
  (forall c, last s = Some c -> is_space c = false) -> s <> [] ->
  exists d r, collapse true s = d :: r /\ is_space d = false.
Proof.
  induction s as [|c t IH]; intros Hl Hne; [done|]. simpl.
  destruct (is_space c) eqn:Hc; [|by exists c, (collapse false t)].
  destruct t as [|d r]; [by rewrite (Hl c eq_refl) in Hc|].
  apply IH; [|done]. intros x Hx. apply Hl. by rewrite last_cons_cons.
Qed.

Lemma ws_single_collapse : forall s b,
  (forall c, last s = Some c -> is_space c = false) ->
  ws_single (collapse b s) = true.
Proof.
  induction s as [|c t IH]; intros b Hl; [done|].
  assert (Ht : forall x, last t = Some x -> is_space x = false).
  { destruct t as [|d r]; [done|]. intros x Hx. apply Hl.
    by rewrite last_cons_cons. }
  simpl. destruct (is_space c) eqn:Hc.
  - destruct t as [|d r]; [by rewrite (Hl c eq_refl) in Hc|].
    destruct (collapse_true_head (d :: r) Ht) as (x & y & Hxy & Hx); [done|].
    destruct b; [by apply IH|].
    cbn [ws_single]. rewrite Hxy, Hx. rewrite <- Hxy. by rewrite IH.
  - cbn [ws_single]. rewrite Hc. by rewrite IH.
Qed.

Lemma ws_single_last : forall s c,
  ws_single s = true -> last s = Some c -> is_space c = false.
Proof.
  induction s as [|d t IH]; intros c Hs Hl; [done|].
  cbn [ws_single] in Hs. apply andb_true_iff in Hs as [Hd Ht].
  destruct t as [|e r].
  - inversion Hl; subst. destruct (is_space c); [|done].
    by rewrite andb_false_r in Hd.
  - rewrite last_cons_cons in Hl. by apply IH.
Qed.

Lemma collapse_id : forall s, ws_single s = true -> collapse false s = s.
Proof.
  induction s as [|c t IH]; intros Hs; [done|].
  cbn [ws_single] in Hs. apply andb_true_iff in Hs as [Hc Ht].
  simpl. destruct (is_space c) eqn:Hsp; [|by rewrite IH].
  apply andb_true_iff in Hc as [Hc32 Hnext]. apply Z.eqb_eq in Hc32 as ->.
  destruct t as [|d r]; [done|]. apply negb_true_iff in Hnext.
  specialize (IH Ht). simpl in IH |- *. rewrite Hnext in IH |- *.
  by rewrite IH.
Qed.

Lemma normalize_ws_fixpoint s : ws_normal s = true -> normalize_ws s = s.
Proof.
  intros H. rewrite normalize_ws_collapse.
  destruct s as [|c t]; [done|]. unfold ws_normal in H.
  apply andb_true_iff in H as [Hc Hs]. apply negb_true_iff in Hc.
  rewrite py_strip_id; [by apply collapse_id| |].
  - intros x Hx. simpl in Hx. congruence.
  - intros x. by apply ws_single_last.
Qed.

Lemma normalize_ws_is_normal s : ws_normal (normalize_ws s) = true.
Proof.
  rewrite normalize_ws_collapse.
  pose proof (py_strip_head s) as Hh. pose proof (py_strip_last s) as Hl.
  destruct (py_strip s) as [|c t]; [done|].
  pose proof (ws_single_collapse (c :: t) false Hl) as Hs.
  pose proof (Hh c eq_refl) as Hc. cbn [collapse] in Hs |- *.
  rewrite Hc in Hs |- *. unfold ws_normal. by rewrite Hc, Hs.
Qed.

(** X1: [normalize_ws] returns text with normalized white space, and leaves
    such text as it is. *)
Theorem normalize_ws_normal_form (s : pstring) :
  ws_normal (normalize_ws s) = true
  /\ normalize_ws (normalize_ws s) = normalize_ws s.
Proof.
  split; [apply normalize_ws_is_normal|].
  apply normalize_ws_fixpoint, normalize_ws_is_normal.
Qed.

(** X2: [strip_tags] is idempotent, and its result has normalized white
    space. *)
Theorem strip_tags_idempotent (html : pstring) :
  ws_normal (strip_tags html) = true
  /\ strip_tags (strip_tags html) = strip_tags html.
Proof.
  split; [apply normalize_ws_is_normal|].
  unfold strip_tags at 1.
  rewrite (sub_no_match ANYTAG_RE _ _
             (tagfree_search _ (tagfree_strip_tags html))).
  apply normalize_ws_fixpoint, normalize_ws_is_normal.
Qed.

(* ===================================================================== *)
(** ** What the sanitizer keeps *)
(* ===================================================================== *)

Lemma lstrip_sublist s : lstrip s `sublist_of` s.
Proof.
  destruct (lstrip_suffix s) as [w Hw]. rewrite Hw at 2.
  by apply sublist_inserts_l.
Qed.

Lemma rstrip_sublist s : rstrip s `sublist_of` s.
Proof.
  destruct (rstrip_prefix s) as [w Hw]. rewrite Hw at 2.
  by apply sublist_inserts_r.
Qed.

Lemma py_strip_sublist s : py_strip s `sublist_of` s.
Proof.
  unfold py_strip. etrans; [apply rstrip_sublist|apply lstrip_sublist].
Qed.

(** A substitution that keeps or drops each match only deletes
    characters. *)
Lemma sub_from_sublist r repl :
  (forall m g, repl m g = m \/ repl m g = []) ->
  forall s skip, sub_from r repl skip s `sublist_of` drop skip s.
Proof.
  intros Hrepl. induction s as [|c t IH]; intros skip.
  - by destruct skip.
  - destruct skip as [|n]; [|apply IH]. cbn [sub_from drop].
    destruct (match_at r (c :: t)) as [[[|m0 m] g]|] eqn:E.
    + destruct (Hrepl [] g) as [-> | ->]; simpl;
        apply sublist_skip; rewrite <- (drop_0 t); apply IH.
    + apply match_at_prefix in E. simpl in E. injection E as E0 E1.
      subst m0. simpl length.
      replace (S (length m) - 1)%nat with (length m) by lia.
      assert (Ht : t = m ++ drop (length m) t).
      { rewrite E1 at 1. by rewrite take_drop. }
      rewrite Ht at 2.
      destruct (Hrepl (c :: m) g) as [-> | ->]; simpl.
      * apply sublist_skip, sublist_app; [done|apply IH].
      * apply sublist_cons, sublist_inserts_l, IH.
    + apply sublist_skip. rewrite <- (drop_0 t). apply IH.
Qed.

Lemma sub_sublist r repl s :
  (forall m g, repl m g = m \/ repl m g = []) -> sub r repl s `sublist_of` s.
Proof.
  intros H. unfold sub. rewrite <- (drop_0 s) at 2. by apply sub_from_sublist.
Qed.

Lemma strip_disallowed_cases m g :
  _strip_disallowed m g = m \/ _strip_disallowed m g = [].
Proof. unfold _strip_disallowed. destruct (bool_decide _); auto. Qed.

(** X3: The sanitizer only deletes: what it returns is the API text with some
    characters left out, in the same order; it adds and changes none. *)
Theorem sanitize_only_deletes (out : pstring) :
  sanitize out `sublist_of` out.
Proof.
  unfold sanitize, remove_script_style.
  etrans; [apply sub_sublist, strip_disallowed_cases|].
  etrans; [apply py_strip_sublist|].
  apply sub_sublist. intros m g. by right.
Qed.

Lemma nomatch_not_lt r c t :
  c <> 60 -> match_at (Seq (lit 60) r) (c :: t) = None.
Proof.
  intros Hc. unfold match_at, lit. cbn [rmatch].
  by destruct (Z.eqb_spec c 60).
Qed.

Lemma nomatch_nil r : match_at (Seq (lit 60) r) [] = None.
Proof. done. Qed.

Lemma search_no_lt r : forall s, 60 ∉ s -> search (Seq (lit 60) r) s = None.
Proof.
  induction s as [|c t IH]; intros H; [done|].
  apply not_elem_of_cons in H as [Hc Ht]. cbn [search].
  rewrite nomatch_not_lt by done. by apply IH.
Qed.

(** X4: Text without [<] passes the sanitizer unchanged but for the trimming,
    and [strip_tags] only normalizes its white space. *)
Theorem markup_free_text (s : pstring) :
  60 ∉ s ->
  sanitize s = py_strip s /\ strip_tags s = normalize_ws s.
Proof.
  intros H. split.
  - unfold sanitize, remove_script_style.
    rewrite (sub_no_match SCRIPT_STYLE_RE _ s (search_no_lt _ s H)).
    apply (sub_no_match TAG_RE), search_no_lt.
    intros Hin. apply H. eapply elem_of_sublist; [exact Hin|].
    apply py_strip_sublist.
  - unfold strip_tags.
    by rewrite (sub_no_match ANYTAG_RE _ s (search_no_lt _ s H)).
Qed.

Lemma markup_free_text_witness :
  sanitize (py "  2 > 1 &amp; done  ") = py "2 > 1 &amp; done"
  /\ strip_tags (py "  2 > 1 &amp;   done  ") = py "2 > 1 &amp; done"
  /\ sanitize (py "  2 > 1 &amp; done  ") = py_strip (py "  2 > 1 &amp; done  ")
  /\ strip_tags (py "  2 > 1 &amp; done  ")
     = normalize_ws (py "  2 > 1 &amp; done  ").
Proof.
  split; [by vm_compute|]. split; [by vm_compute|].
  apply (markup_free_text (py "  2 > 1 &amp; done  ")).
  vm_compute. intros H. apply list_elem_of_In in H. simpl in H.
  repeat destruct H as [H|H]; try discriminate H. done.
Defined.

(* ===================================================================== *)
(** ** What a run writes *)
(* ===================================================================== *)

(** A directory above a path below [posts/] begins with [posts]. *)
Lemma posts_ancestor d t rest :
  py "posts/" ++ rest = d ++ 47 :: t -> startswith (py "posts") d = true.
Proof.
  intros H. change (py "posts/") with [112; 111; 115; 116; 115; 47] in H.
  change (py "posts") with [112; 111; 115; 116; 115].
  do 5 (destruct d as [|? d]; [simpl in H; discriminate H|];
        simpl in H; injection H as <- H).
  done.
Qed.

Ltac in_outputs :=
  unfold OUTPUT_PATHS;
  repeat first [apply list_elem_of_here | apply list_elem_of_further].

Ltac above_outputs :=
  let d := fresh "d" in
  let H := fresh "H" in
  intros d H; vm_compute in H;
  first
    [ by apply elem_of_nil in H
    | apply list_elem_of_singleton in H; subst d; in_outputs ].

Section Frame.

Variables (E : Env) (p : pstring).
Hypothesis Hout : p ∉ OUTPUT_PATHS.
Hypothesis Hposts : startswith (py "posts") p = false.

Lemma output_apart q : q ∈ OUTPUT_PATHS -> p <> q.
Proof. intros Hq ->. by apply Hout. Qed.

Lemma write_output_same_at q s :
  q ∈ OUTPUT_PATHS ->
  (forall d, d ∈ ancestors q -> d ∈ OUTPUT_PATHS) ->
  preserves (same_at p) (write_text q s).
Proof.
  intros Hq Hanc. apply write_text_same_at; [by apply output_apart|].
  intros Hin. by apply Hout, Hanc.
Qed.

Lemma write_post_same_at item s :
  preserves (same_at p) (write_text (post_rel_of E item) s).
Proof.
  apply write_text_same_at.
  - intros ->. unfold post_rel_of in Hposts. simpl in Hposts. done.
  - intros Hin. apply ancestors_split in Hin as [t Ht].
    apply posts_ancestor in Ht. congruence.
Qed.

Lemma copy_assets_same_at : preserves (same_at p) copy_assets.
Proof.
  unfold copy_assets.
  pres_fs ltac:(apply write_output_same_at; [in_outputs|above_outputs]).
Qed.

Lemma render_site_same_at cfg item body :
  preserves (same_at p) (render_site E cfg item body).
Proof.
  unfold render_site.
  pres_fs ltac:(first
    [ apply write_post_same_at
    | apply write_output_same_at; [in_outputs|above_outputs] ]).
Qed.

Lemma write_lite_lock_same_at url :
  preserves (same_at p) (write_lite_lock E url).
Proof.
  unfold write_lite_lock.
  apply write_output_same_at; [in_outputs|above_outputs].
Qed.

Lemma pipeline_same_at : preserves (same_at p) (pipeline E).
Proof.
  unfold pipeline.
  apply preserves_bind; [apply _|apply check_lite_lock_pure, _|intros _].
  apply preserves_bind; [apply _|apply load_config_pure, _|intros cfg].
  apply preserves_bind; [apply _|apply fetch_latest_item_pure, _|intros item].
  apply preserves_bind; [apply _|apply generate_body_html_pure, _|intros b].
  apply preserves_bind; [apply _|apply copy_assets_same_at|intros _].
  apply preserves_bind;
    [apply _|apply render_site_same_at|intros [rel url]].
  apply preserves_bind; [apply _|apply write_lite_lock_same_at|intros _].
  pres.
Qed.

End Frame.

(** X5: A run changes no entry of the directory other than its outputs: the
    assets, the three pages of the root, the lock marker and what lies
    below [posts].  The configuration and the templates are never
    written. *)
Theorem main_changes_only_outputs (E : Env) (st : state) (p : pstring) :
  p ∉ OUTPUT_PATHS ->
  startswith (py "posts") p = false ->
  fs (main E st).2 !! p = fs st !! p.
Proof.
  intros Hout Hposts. revert st. change (preserves (same_at p) (main E)).
  unfold main. destruct (parse_args E) as [code|[]].
  - apply preserves_exit, _.
  - apply selftest_pure, _.
  - by apply pipeline_same_at.
Qed.

(** The configuration file and the post template after the end-to-end
    run. *)
Lemma main_changes_only_outputs_witness :
  fs (main Demo.env Demo.start).2 !! CONFIG_PATH = fs Demo.start !! CONFIG_PATH
  /\ fs (main Demo.env Demo.start).2 !! py "templates/post.html"
     = fs Demo.start !! py "templates/post.html".
Proof.
  split; apply main_changes_only_outputs; try reflexivity;
    vm_compute; intros H; apply list_elem_of_In in H; simpl in H;
    repeat destruct H as [H|H]; try discriminate H; done.
Defined.

(* ===================================================================== *)
(** ** Exit codes *)
(* ===================================================================== *)

Section ExitCodes.

Context {A B : Type} (C : Z -> Prop).

Lemma exits_bind (m : M A) (k : A -> M B) :
  exits_in C m -> (forall a, exits_in C (k a)) -> exits_in C (m ≫= k).
Proof.
  intros Hm Hk st code st'. unfold mbind, M_bind, bind.
  destruct (m st) as [[a|c|e] st1] eqn:E; intros H.
  - by eapply Hk.
  - inversion H; subst. by eapply Hm.
  - done.
Qed.

Lemma exits_try (m : M A) (h : exn -> M A) :
  exits_in C m -> (forall e, exits_in C (h e)) -> exits_in C (try_except m h).
Proof.
  intros Hm Hh st code st'. unfold try_except.
  destruct (m st) as [[a|c|e] st1] eqn:E; intros H.
  - done.
  - inversion H; subst. by eapply Hm.
  - by eapply Hh.
Qed.

Lemma exits_ret (a : A) : exits_in C (ret a).
Proof. by intros st code st' H. Qed.

Lemma exits_raise (e : exn) : exits_in C (@raise A e).
Proof. by intros st code st' H. Qed.

Lemma exits_lift (o : outcome A) : no_exit o -> exits_in C (lift o).
Proof. intros Ho st code st' H. inversion H; subst. by destruct (Ho code). Qed.

Lemma exits_sys_exit code : C code -> exits_in C (@sys_exit A code).
Proof. intros Hc st c st' H. by inversion H; subst. Qed.

Lemma exits_die msg code : C code -> exits_in C (@die A msg code).
Proof. intros Hc st c st' H. by inversion H; subst. Qed.

End ExitCodes.

Lemma exits_emit C ev : exits_in C (emit ev).
Proof. by intros st code st' H. Qed.

Lemma exits_get_fs C : exits_in C get_fs.
Proof. by intros st code st' H. Qed.

Lemma exits_put_fs C f : exits_in C (put_fs f).
Proof. by intros st code st' H. Qed.

Lemma no_exit_of_option {A} (o : option A) e : no_exit (of_option o e).
Proof. intros code. by destruct o. Qed.

Lemma no_exit_py_get v key : no_exit (py_get v key).
Proof. intros code. by destruct v. Qed.

Lemma no_exit_py_float E v : no_exit (py_float E v).
Proof.
  intros code. destruct v; simpl; try done; by apply no_exit_of_option.
Qed.

Lemma no_exit_py_int E v : no_exit (py_int E v).
Proof.
  intros code. destruct v; simpl; try done; by apply no_exit_of_option.
Qed.

Lemma exits_mkdirs C ds : exits_in C (mkdirs ds).
Proof.
  induction ds as [|d ds IH]; [apply exits_ret|]. simpl.
  apply exits_bind; [|intros _; apply IH].
  unfold mkdir1. apply exits_bind; [apply exits_get_fs|intros f].
  destruct (f !! d) as [[]|]; try apply exits_raise; try apply exits_ret.
  apply exits_bind; [apply exits_put_fs|intros _; apply exits_emit].
Qed.

(** Decompose a goal [exits_in C m] along the structure of [m]; what is
    left are the codes of the calls of [die]. *)
Ltac exits_step :=
  first
    [ apply exits_ret
    | apply exits_raise
    | apply exits_emit
    | apply exits_get_fs
    | apply exits_put_fs
    | apply exits_mkdirs
    | apply exits_lift;
        first [ apply no_exit_of_option | apply no_exit_py_get
              | apply no_exit_py_float | apply no_exit_py_int ]
    | lazymatch goal with
      | |- exits_in _ (die _ _) => apply exits_die
      | |- exits_in _ (sys_exit _) => apply exits_sys_exit
      end
    | lazymatch goal with
      | |- exits_in _ (die _ _) => fail
      | |- exits_in _ (sys_exit _) => fail
      | |- exits_in _ (mkdirs _) => fail
      | |- _ => apply exits_bind; [|intros ?]
      end
    | apply exits_try; [|intros ?]
    | match goal with
      | |- exits_in _ (match ?x with _ => _ end) => destruct x
      end ].

Ltac exits := repeat exits_step.

Section StageCodes.

Variable E : Env.

Lemma check_lite_lock_codes : exits_in (fun c => c = 0) (check_lite_lock E).
Proof. unfold check_lite_lock. exits; done. Qed.

Lemma load_config_codes : exits_in (fun c => c = 2) (load_config E).
Proof. unfold load_config. exits; done. Qed.

Lemma fetch_latest_item_codes url :
  exits_in (fun c => c = 4) (fetch_latest_item E url).
Proof. unfold fetch_latest_item. exits; done. Qed.

Lemma generate_body_html_codes cfg item :
  exits_in (fun c => c = 2 \/ c = 3) (generate_body_html E cfg item).
Proof. unfold generate_body_html. exits; auto. Qed.

Lemma copy_assets_codes : exits_in (fun c => c = 5) copy_assets.
Proof. unfold copy_assets. exits; done. Qed.

Lemma render_site_codes cfg item body :
  exits_in (fun c => c = 5) (render_site E cfg item body).
Proof. unfold render_site. exits; done. Qed.

Lemma write_lite_lock_codes url :
  exits_in (fun c => False) (write_lite_lock E url).
Proof. unfold write_lite_lock. exits. Qed.

Lemma selftest_codes : exits_in (fun c => c = 5) selftest.
Proof. unfold selftest. exits; done. Qed.

End StageCodes.

Lemma exits_weaken {A} (C D : Z -> Prop) (m : M A) :
  (forall c, C c -> D c) -> exits_in C m -> exits_in D m.
Proof. intros HCD Hm st code st' H. eapply HCD, Hm, H. Qed.

Lemma check_lite_lock_unlocked E st :
  fs st !! LITE_LOCK_PATH = None ->
  check_lite_lock E st
  = (Ret tt, {| fs := fs st; trace := trace st ++ [EvStat LITE_LOCK_PATH] |}).
Proof.
  intros H. unfold check_lite_lock.
  erewrite bind_step by apply path_exists_run.
  rewrite bool_decide_eq_false_2; [done|].
  rewrite H. by intros [? ?].
Qed.

(** The codes the stages after the lock check exit with. *)
Lemma after_lock_codes E :
  exits_in (fun c => c = 2 \/ c = 3 \/ c = 4 \/ c = 5)
    (cfg ← load_config E;
     item ← fetch_latest_item E (rss_url cfg);
     body_html ← generate_body_html E cfg item;
     copy_assets;;
     '(_post_rel, post_url) ← render_site E cfg item body_html;
     write_lite_lock E post_url;;
     print (py "DONE");;
     print (py "Post: " ++ post_url)).
Proof.
  apply exits_bind;
    [eapply exits_weaken; [|apply load_config_codes]; intros ? ?; cbv beta in *; tauto|intros cfg].
  apply exits_bind;
    [eapply exits_weaken; [|apply fetch_latest_item_codes]; intros ? ?; cbv beta in *; tauto
    |intros item].
  apply exits_bind;
    [eapply exits_weaken; [|apply generate_body_html_codes]; intros ? ?; cbv beta in *; tauto
    |intros body].
  apply exits_bind;
    [eapply exits_weaken; [|apply copy_assets_codes]; intros ? ?; cbv beta in *; tauto|intros _].
  apply exits_bind;
    [eapply exits_weaken; [|apply render_site_codes]; intros ? ?; cbv beta in *; tauto
    |intros [rel url]].
  apply exits_bind;
    [eapply exits_weaken; [|apply write_lite_lock_codes]; intros ? ?; cbv beta in *; tauto
    |intros _].
  unfold print. exits.
Qed.

(** X6: Every exit code of a run of the pipeline is 0, 2, 3, 4 or 5, and code 0
    is the lock gate: the process status is 0 only when the run completed
    or the lock marker was there at the start.  A failure is never
    reported as status 0. *)
Theorem pipeline_exit_codes (E : Env) (st : state) :
  parse_args E = Parsed false ->
  (forall code, (main E st).1 = Exit code ->
     (code = 0 /\ is_Some (fs st !! LITE_LOCK_PATH))
     \/ code = 2 \/ code = 3 \/ code = 4 \/ code = 5)
  /\ (exit_status (main E st).1 = 0 ->
      (main E st).1 = Ret tt \/ is_Some (fs st !! LITE_LOCK_PATH)).
Proof.
  intros Hargs. unfold main. rewrite Hargs.
  assert (Hcodes : forall code, (pipeline E st).1 = Exit code ->
     (code = 0 /\ is_Some (fs st !! LITE_LOCK_PATH))
     \/ code = 2 \/ code = 3 \/ code = 4 \/ code = 5).
  { intros code Hexit. destruct (fs st !! LITE_LOCK_PATH) as [n|] eqn:Hlock.
    - destruct (check_lite_lock_locked E st) as [msg Hmsg];
        [by rewrite Hlock|].
      unfold pipeline in Hexit. erewrite bind_Exit in Hexit by exact Hmsg.
      simpl in Hexit. inversion Hexit. left. eauto.
    - right. unfold pipeline in Hexit.
      erewrite bind_step in Hexit by (by apply check_lite_lock_unlocked).
      match type of Hexit with (?m ?s0).1 = _ =>
        destruct (m s0) as [o s'] eqn:Hm end.
      simpl in Hexit. subst o. exact (after_lock_codes E _ _ _ Hm). }
  split; [exact Hcodes|].
  destruct (pipeline E st).1 as [[]|code|e] eqn:Ho; simpl; intros H0;
    [by left| |done].
  subst code. destruct (Hcodes 0 eq_refl) as [[_ Hl]|[?|[?|[?|?]]]];
    [by right|done..].
Qed.

Lemma pipeline_exit_codes_witness :
  (main Demo.no_link_env Demo.start).1 = Exit 4
  /\ (forall code, (main Demo.no_link_env Demo.start).1 = Exit code ->
        (code = 0 /\ is_Some (fs Demo.start !! LITE_LOCK_PATH))
        \/ code = 2 \/ code = 3 \/ code = 4 \/ code = 5)
  /\ (exit_status (main Demo.no_link_env Demo.start).1 = 0 ->
      (main Demo.no_link_env Demo.start).1 = Ret tt
      \/ is_Some (fs Demo.start !! LITE_LOCK_PATH)).
Proof.
  split; [by vm_compute|].
  by apply (pipeline_exit_codes Demo.no_link_env Demo.start).
Defined.

(* ===================================================================== *)
(** ** At most one run *)
(* ===================================================================== *)

(** X7: A run of the pipeline completes only where no lock marker was, and it
    leaves one: every later run, whatever its configuration, feed or API
    reply, ends with status 0, changes nothing in the directory, and does
    no more than look at the marker and print one line. *)
Theorem second_run_is_locked (E E' : Env) (st : state) :
  parse_args E = Parsed false ->
  (main E st).1 = Ret tt ->
  parse_args E' = Parsed false ->
  fs st !! LITE_LOCK_PATH = None
  /\ exit_status (main E' (main E st).2).1 = 0
  /\ fs (main E' (main E st).2).2 = fs (main E st).2
  /\ exists msg,
       trace (main E' (main E st).2).2
       = trace (main E st).2
         ++ [EvStat LITE_LOCK_PATH; EvRead LITE_LOCK_PATH; EvStdout msg].
Proof.
  intros Hargs Hret Hargs'. unfold main in *. rewrite Hargs in *.
  rewrite Hargs'. split.
  - destruct (fs st !! LITE_LOCK_PATH) as [n|] eqn:Hlock; [|done].
    destruct (check_lite_lock_locked E st) as [msg Hmsg];
      [by rewrite Hlock|].
    unfold pipeline in Hret. erewrite bind_Exit in Hret by exact Hmsg.
    done.
  - destruct (pipeline E st) as [o st1] eqn:Hrun. simpl in Hret. subst o.
    apply pipeline_Ret in Hrun
      as (? & ? & ? & ? & ? & ? & ? & ? & ? & _ & _ & _ & _ & [x Hx] & _).
    destruct (check_lite_lock_locked E' st1) as [msg Hmsg];
      [by rewrite Hx|].
    unfold pipeline. erewrite bind_Exit by exact Hmsg. simpl. eauto.
Qed.

Lemma second_run_is_locked_witness :
  (main Demo.env Demo.start).1 = Ret tt
  /\ fs Demo.start !! LITE_LOCK_PATH = None
  /\ exit_status (main Demo.env (main Demo.env Demo.start).2).1 = 0
  /\ fs (main Demo.env (main Demo.env Demo.start).2).2
     = fs (main Demo.env Demo.start).2
  /\ exists msg,
       trace (main Demo.env (main Demo.env Demo.start).2).2
       = trace (main Demo.env Demo.start).2
         ++ [EvStat LITE_LOCK_PATH; EvRead LITE_LOCK_PATH; EvStdout msg].
Proof.
  split; [by vm_compute|].
  apply (second_run_is_locked Demo.env Demo.env Demo.start);
    [reflexivity|by vm_compute|reflexivity].
Defined.

(* ===================================================================== *)
(** ** The self test *)
(* ===================================================================== *)

Lemma require_file_run p msg st :
  require_file p msg st
  = if present (fs st) p
    then (Ret tt, {| fs := fs st; trace := trace st ++ [EvStat p] |})
    else (Exit 5, {| fs := fs st;
                     trace := trace st ++ [EvStat p; EvStderr (py msg)] |}).
Proof.
  unfold require_file, present.
  erewrite bind_step by apply path_exists_run.
  destruct (bool_decide _); [reflexivity|].
  unfold die, mbind, M_bind, bind, emit, sys_exit. cbn [fs trace].
  by rewrite <- app_assoc.
Qed.

Lemma require_file_bind {B} p msg (k : M B) st :
  (require_file p msg;; k) st
  = if present (fs st) p
    then k {| fs := fs st; trace := trace st ++ [EvStat p] |}
    else (Exit 5, {| fs := fs st;
                     trace := trace st ++ [EvStat p; EvStderr (py msg)] |}).
Proof.
  unfold mbind, M_bind, bind. rewrite require_file_run.
  by destruct (present (fs st) p).
Qed.

(** X8: A self test looks at four paths and at nothing else: it ends with
    status 0 when all four exist and with status 5 as soon as one does not;
    it reads no file, writes nothing, sends no request, and the lock marker
    and [config.json] play no part. *)
Theorem selftest_checks_required_files (E : Env) (st : state) :
  parse_args E = Parsed true ->
  (main E st).1
  = (if forallb (present (fs st)) REQUIRED_FILES then Ret tt else Exit 5)
  /\ fs (main E st).2 = fs st
  /\ exists evs,
       trace (main E st).2 = trace st ++ evs /\ forallb is_local evs = true.
Proof.
  intros Hargs. unfold main. rewrite Hargs. unfold selftest, REQUIRED_FILES.
  cbn [forallb].
  rewrite !require_file_bind. cbn [fs trace]. rewrite print_run.
  cbn [fs trace].
  repeat match goal with
         | |- context [present ?f ?p] => destruct (present f p)
         end;
    cbn [andb fst snd fs trace]; (split; [reflexivity|split; [reflexivity|]]);
    rewrite <- ?app_assoc; eexists; (split; [reflexivity|reflexivity]).
Qed.

Lemma selftest_checks_required_files_witness :
  (main Demo.selftest_env Demo.locked_no_example).1 = Exit 5
  /\ fs (main Demo.selftest_env Demo.locked_no_example).2
     = fs Demo.locked_no_example.
Proof.
  destruct (selftest_checks_required_files Demo.selftest_env
              Demo.locked_no_example eq_refl) as (H1 & H2 & _).
  split; [exact H1|exact H2].
Defined.

(* ===================================================================== *)
(** ** Failures before the first write *)
(* ===================================================================== *)

Lemma bind_Exit_inv {A B} (m : M A) (k : A -> M B) st c st' :
  (m ≫= k) st = (Exit c, st') ->
  m st = (Exit c, st')
  \/ exists a st1, m st = (Ret a, st1) /\ k a st1 = (Exit c, st').
Proof.
  unfold mbind, M_bind, bind. destruct (m st) as [[a|c'|e] st1]; intros H.
  - right. by exists a, st1.
  - left. by inversion H.
  - done.
Qed.

(** The stages from [copy_assets] on exit with code 5 only. *)
Lemma writing_stages_codes E cfg item body :
  exits_in (fun c => c = 5)
    (copy_assets;;
     '(_post_rel, post_url) ← render_site E cfg item body;
     write_lite_lock E post_url;;
     print (py "DONE");;
     print (py "Post: " ++ post_url)).
Proof.
  apply exits_bind; [apply copy_assets_codes|intros _].
  apply exits_bind; [apply render_site_codes|intros [rel url]].
  apply exits_bind;
    [eapply exits_weaken; [|apply write_lite_lock_codes]; by intros c ?
    |intros _].
  unfold print. exits.
Qed.

Lemma pipeline_early_exit E st c :
  (pipeline E st).1 = Exit c -> c <> 5 -> fs (pipeline E st).2 = fs st.
Proof.
  destruct (pipeline E st) as [o st'] eqn:Hrun. simpl. intros -> Hc.
  unfold pipeline in Hrun.
  apply bind_Exit_inv in Hrun as [H|(? & s1 & H1 & Hrun)].
  { symmetry. exact (preserves_run eq _ _ _ _ (check_lite_lock_pure E eq) H). }
  pose proof (preserves_run eq _ _ _ _ (check_lite_lock_pure E eq) H1) as ->.
  apply bind_Exit_inv in Hrun as [H|(cfg & s2 & H2 & Hrun)].
  { symmetry. exact (preserves_run eq _ _ _ _ (load_config_pure E eq) H). }
  pose proof (preserves_run eq _ _ _ _ (load_config_pure E eq) H2) as ->.
  apply bind_Exit_inv in Hrun as [H|(item & s3 & H3 & Hrun)].
  { symmetry.
    exact (preserves_run eq _ _ _ _ (fetch_latest_item_pure E eq _) H). }
  pose proof (preserves_run eq _ _ _ _ (fetch_latest_item_pure E eq _) H3)
    as ->.
  apply bind_Exit_inv in Hrun as [H|(body & s4 & H4 & Hrun)].
  { symmetry.
    exact (preserves_run eq _ _ _ _ (generate_body_html_pure E eq _ _) H). }
  by apply writing_stages_codes in Hrun.
Qed.

(** X9: Whenever the process ends with an exit code other than 5 - the lock
    gate (0), a configuration or API-key error (2), an API error (3), a
    feed error (4), or the code of the argument parser - the directory is
    exactly as it was: only a failure of the writing stages, which exit
    with 5, can leave partial output behind an exit code. *)
Theorem exit_code_not_5_changes_nothing (E : Env) (st : state) (c : Z) :
  (main E st).1 = Exit c -> c <> 5 -> fs (main E st).2 = fs st.
Proof.
  unfold main. destruct (parse_args E) as [code|[]].
  - done.
  - intros _ _. symmetry. apply (selftest_pure eq).
  - apply pipeline_early_exit.
Qed.

Lemma exit_code_not_5_changes_nothing_witness :
  (main Demo.no_link_env Demo.start).1 = Exit 4
  /\ fs (main Demo.no_link_env Demo.start).2 = fs Demo.start.
Proof.
  split; [by vm_compute|].
  apply (exit_code_not_5_changes_nothing Demo.no_link_env Demo.start 4);
    [by vm_compute|lia].
Defined.

(* ===================================================================== *)
(** ** Requests *)
(* ===================================================================== *)

Lemma requests_of_app a b :
  requests_of (a ++ b) = requests_of a ++ requests_of b.
Proof. apply List.filter_app. Qed.

Section Sending.

Context {A B : Type}.

Lemma sends_bind (P Q R : list event -> Prop) (m : M A) (k : A -> M B) :
  sends P m -> (forall a, sends Q (k a)) ->
  (forall r, P r -> R r) -> (forall r1 r2, P r1 -> Q r2 -> R (r1 ++ r2)) ->
  sends R (m ≫= k).
Proof.
  intros Hm Hk H1 H2 st. unfold mbind, M_bind, bind.
  destruct (Hm st) as (e1 & Ht & HP).
  destruct (m st) as [[a|c|e] st1]; simpl in *; [|by eauto..].
  destruct (Hk a st1) as (e2 & Ht2 & HQ). exists (e1 ++ e2).
  rewrite Ht2, Ht, app_assoc, requests_of_app. auto.
Qed.

(** A computation that sends nothing, and then one that sends [R]. *)
Lemma quiet_then (R : list event -> Prop) (m : M A) (k : A -> M B) :
  quiet m -> (forall a, sends R (k a)) -> R [] -> sends R (m ≫= k).
Proof.
  intros Hm Hk H0. eapply sends_bind; [exact Hm|exact Hk|by intros r ->|].
  by intros r1 r2 ->.
Qed.

(** A computation that sends [P], and then one that sends nothing. *)
Lemma sends_then_quiet (P : list event -> Prop) (m : M A) (k : A -> M B) :
  sends P m -> (forall a, quiet (k a)) -> sends P (m ≫= k).
Proof.
  intros Hm Hk. eapply sends_bind; [exact Hm|exact Hk|done|].
  intros r1 r2 H ->. by rewrite app_nil_r.
Qed.

Lemma sends_weaken (P R : list event -> Prop) (m : M A) :
  (forall r, P r -> R r) -> sends P m -> sends R m.
Proof. intros H Hm st. destruct (Hm st) as (e & ? & ?). eauto. Qed.

Lemma quiet_bind (m : M A) (k : A -> M B) :
  quiet m -> (forall a, quiet (k a)) -> quiet (m ≫= k).
Proof. intros Hm Hk. by apply quiet_then. Qed.

Lemma quiet_try (m : M A) (h : exn -> M A) :
  quiet m -> (forall e, quiet (h e)) -> quiet (try_except m h).
Proof.
  intros Hm Hh st. unfold try_except.
  destruct (Hm st) as (e1 & Ht & HP).
  destruct (m st) as [[a|c|e] st1]; simpl in *; [by eauto..|].
  destruct (Hh e st1) as (e2 & Ht2 & HQ). exists (e1 ++ e2).
  by rewrite Ht2, Ht, app_assoc, requests_of_app, HP, HQ.
Qed.

Lemma quiet_ret (a : A) : quiet (ret a).
Proof. intros st. exists []. by rewrite app_nil_r. Qed.

Lemma quiet_raise (e : exn) : quiet (@raise A e).
Proof. intros st. exists []. by rewrite app_nil_r. Qed.

Lemma quiet_exit (c : Z) : quiet (@sys_exit A c).
Proof. intros st. exists []. by rewrite app_nil_r. Qed.

Lemma quiet_lift (o : outcome A) : quiet (lift o).
Proof. intros st. exists []. by rewrite app_nil_r. Qed.

End Sending.

Lemma sends_emit ev :
  is_request ev = true -> sends (fun r => r = [ev]) (emit ev).
Proof.
  intros H st. exists [ev]. split; [done|].
  unfold requests_of. simpl. by rewrite H.
Qed.

Lemma quiet_emit ev : is_request ev = false -> quiet (emit ev).
Proof.
  intros H st. exists [ev]. split; [done|].
  unfold requests_of. simpl. by rewrite H.
Qed.

Lemma quiet_get_fs : quiet get_fs.
Proof. intros st. exists []. by rewrite app_nil_r. Qed.

Lemma quiet_put_fs f : quiet (put_fs f).
Proof. intros st. exists []. by rewrite app_nil_r. Qed.

(** Decompose a goal [quiet m] along the structure of [m]. *)
Ltac quiet_step :=
  first
    [ apply quiet_ret
    | apply quiet_raise
    | apply quiet_exit
    | apply quiet_lift
    | apply quiet_get_fs
    | apply quiet_put_fs
    | apply quiet_emit; reflexivity
    | lazymatch goal with
      | |- quiet (emit _) => fail
      | |- _ => apply quiet_bind; [|intros ?]
      end
    | apply quiet_try; [|intros ?]
    | match goal with
      | |- quiet (match ?x with _ => _ end) => destruct x
      end ].

Ltac quietly := repeat quiet_step.

Lemma quiet_mkdirs ds : quiet (mkdirs ds).
Proof.
  induction ds as [|d ds IH]; [apply quiet_ret|]. simpl.
  apply quiet_bind; [|intros _; apply IH]. unfold mkdir1. quietly.
Qed.

Lemma quiet_write_text p s : quiet (write_text p s).
Proof.
  unfold write_text. apply quiet_bind; [apply quiet_mkdirs|intros _].
  quietly.
Qed.

Section StageRequests.

Variable E : Env.

Lemma check_lite_lock_quiet : quiet (check_lite_lock E).
Proof. unfold check_lite_lock. quietly. Qed.

Lemma load_config_quiet : quiet (load_config E).
Proof. unfold load_config. quietly. Qed.

Lemma selftest_quiet : quiet selftest.
Proof. unfold selftest. quietly. Qed.

Lemma copy_assets_quiet : quiet copy_assets.
Proof.
  unfold copy_assets.
  repeat first [apply quiet_write_text | quiet_step].
Qed.

Lemma render_site_quiet cfg item body :
  quiet (render_site E cfg item body).
Proof.
  unfold render_site.
  repeat first [apply quiet_write_text | quiet_step].
Qed.

Lemma write_lite_lock_quiet url : quiet (write_lite_lock E url).
Proof. apply quiet_write_text. Qed.

(** [fetch_latest_item] sends one request: the GET of the feed. *)
Lemma fetch_latest_item_requests url :
  sends (fun r => r = [EvHttpGet url]) (fetch_latest_item E url).
Proof.
  unfold fetch_latest_item.
  apply sends_then_quiet; [by apply sends_emit|intros _; quietly].
Qed.

(** [deepseek_chat] sends one request: the POST to the API. *)
Lemma deepseek_chat_requests key payload :
  sends (fun r => r = [EvHttpPost DEEPSEEK_URL payload])
    (deepseek_chat E key payload).
Proof.
  unfold deepseek_chat.
  apply sends_then_quiet; [by apply sends_emit|intros _; quietly].
Qed.

Lemma generate_body_html_requests cfg item :
  sends chat_only (generate_body_html E cfg item).
Proof.
  unfold generate_body_html.
  apply quiet_then; [quietly|intros _|by left].
  apply quiet_then; [quietly|intros _|by left].
  apply sends_then_quiet; [|intros out; quietly].
  eapply sends_weaken; [|apply deepseek_chat_requests].
  intros r ->. right. eauto.
Qed.

Lemma pipeline_requests : sends feed_then_chat (pipeline E).
Proof.
  unfold pipeline.
  apply quiet_then; [apply check_lite_lock_quiet|intros _|by left].
  apply quiet_then; [apply load_config_quiet|intros cfg|by left].
  eapply (sends_bind _ chat_only);
    [apply fetch_latest_item_requests|intros item| |].
  2:{ intros r ->. right. left. eauto. }
  2:{ intros r1 r2 -> [->|[payload ->]]; right; [left|right]; eauto. }
  apply sends_then_quiet; [apply generate_body_html_requests|intros body].
  apply quiet_bind; [apply copy_assets_quiet|intros _].
  apply quiet_bind; [apply render_site_quiet|intros [rel url]].
  apply quiet_bind; [apply write_lite_lock_quiet|intros _].
  unfold print. quietly.
Qed.

End StageRequests.

(** X10: Whatever the command line, the configuration, the feed and the API
    answer, a run of the program sends at most two HTTP requests: first one
    GET (the feed), then one POST, and the POST goes to the DeepSeek chat
    endpoint.  Nothing is retried, and no request follows a failure. *)
Theorem run_sends_feed_then_chat (E : Env) (st : state) :
  exists evs,
    trace (main E st).2 = trace st ++ evs
    /\ feed_then_chat (requests_of evs).
Proof.
  unfold main. destruct (parse_args E) as [code|[]].
  - destruct (quiet_exit (A := unit) code st) as (evs & ? & Hq).
    exists evs. split; [done|]. by left.
  - destruct (selftest_quiet st) as (evs & ? & Hq).
    exists evs. split; [done|]. by left.
  - apply pipeline_requests.
Qed.

(* ===================================================================== *)
(** ** What is sent to the API *)
(* ===================================================================== *)

Lemma tagfree_take n s : tagfree s -> tagfree (take n s).
Proof. intros H. apply (tagfree_app_l _ (drop n s)). by rewrite take_drop. Qed.

(** X11: Without an API key nothing is sent and the generator exits with code
    2.  With one, the only request is one POST to the chat endpoint, and
    what it carries of the feed is the title, the link and a snippet of the
    summary that is at most 800 characters long and holds no tag. *)
Theorem prompt_carries_tagfree_snippet (E : Env) (cfg : AppConfig)
    (item : Item) (st : state) :
  exists evs,
    trace (generate_body_html E cfg item st).2 = trace st ++ evs
    /\ ((py_strip (default [] (getenv E (py "DEEPSEEK_API_KEY"))) = []
         /\ (generate_body_html E cfg item st).1 = Exit 2
         /\ requests_of evs = [])
        \/ (py_strip (default [] (getenv E (py "DEEPSEEK_API_KEY"))) <> []
            /\ exists snippet,
                 requests_of evs
                 = [EvHttpPost DEEPSEEK_URL
                      {| p_model := model (generation cfg);
                         p_system := SYSTEM_PROMPT;
                         p_user := user_prompt (item_title item)
                                     (item_link item) snippet;
                         p_temperature := temperature (generation cfg);
                         p_max_tokens := max_tokens (generation cfg) |}]
                 /\ (length snippet <= 800)%nat
                 /\ search ANYTAG_RE snippet = None)).
Proof.
  unfold generate_body_html.
  erewrite bind_step by reflexivity.
  destruct (bool_decide_reflect
              (py_strip (default [] (getenv E (py "DEEPSEEK_API_KEY"))) = []))
    as [Hkey|Hkey].
  - exists [EvGetenv (py "DEEPSEEK_API_KEY");
             EvStderr (py "Missing DEEPSEEK_API_KEY (set it as a GitHub Actions secret).")].
    split; [|left; split; [exact Hkey|split; reflexivity]].
    unfold die, mbind, M_bind, bind, emit, sys_exit. cbn [fs trace snd].
    rewrite <- app_assoc. reflexivity.
  - erewrite bind_step by reflexivity.
    match goal with
    | |- context [(deepseek_chat E ?k ?p ≫= ?f) ?s] =>
        destruct (sends_then_quiet _ (deepseek_chat E k p) f
                    (deepseek_chat_requests E k p)
                    (fun out => quiet_ret (body_of_response out)) s)
          as (evs & Ht & Hr)
    end.
    exists (EvGetenv (py "DEEPSEEK_API_KEY") :: evs). split.
    { rewrite Ht. cbn [trace]. by rewrite <- app_assoc. }
    right. split; [exact Hkey|].
    exists (take 800 (strip_tags (item_summary item))).
    split; [exact Hr|]. split; [rewrite length_take; lia|].
    apply tagfree_search, tagfree_take, tagfree_strip_tags.
Qed.

(* ===================================================================== *)
(** ** The assets *)
(* ===================================================================== *)

Lemma read_text_run p st :
  read_text p st
  = (match fs st !! p with
     | Some (File text) => Ret text
     | Some Unreadable => Raise UnicodeDecodeError
     | Some Dir | None => Raise OSError
     end,
     {| fs := fs st; trace := trace st ++ [EvRead p] |}).
Proof.
  unfold read_text, mbind, M_bind, bind, emit, get_fs, ret, raise.
  cbn [fs trace]. by destruct (fs st !! p) as [[]|].
Qed.



(* ===================================================================== *)
(** ** The loaded configuration *)
(* ===================================================================== *)

Lemma py_strip_trimmed s : trimmed (py_strip s).
Proof. apply py_strip_id; [apply py_strip_head|apply py_strip_last]. Qed.

Lemma read_json_Ret E p st v st' :
  read_json E p st = (Ret v, st') ->
  st' = {| fs := fs st; trace := trace st ++ [EvRead p] |}.
Proof.
  unfold read_json. intros H. apply bind_Ret in H as (text & s1 & Hr & H).
  rewrite read_text_run in Hr. apply lift_Ret in H as [_ ->].
  by inversion Hr.
Qed.

(** X13: Every configuration [load_config] returns is a valid one: title,
    description, feed URL and contact e-mail are non-empty and have no
    white space around them, the base URL starts with [http://] or
    [https://] and does not end with a slash, and the model name is
    trimmed.  Loading tests for [config.json], reads it, and does nothing
    else. *)
Theorem load_config_returns_valid_config (E : Env) (st : state)
    (cfg : AppConfig) (st' : state) :
  load_config E st = (Ret cfg, st') ->
  Forall (fun x => x <> [] /\ trimmed x)
    [title (site cfg); description (site cfg); rss_url cfg;
     contact_email cfg]
  /\ base_url (site cfg) <> []
  /\ startswith (py "http://") (base_url (site cfg))
     || startswith (py "https://") (base_url (site cfg)) = true
  /\ endswith (py "/") (base_url (site cfg)) = false
  /\ trimmed (model (generation cfg))
  /\ st' = {| fs := fs st;
              trace := trace st ++ [EvStat CONFIG_PATH; EvRead CONFIG_PATH] |}.
Proof.
  intros H.
  pose proof (load_config_Ret E st cfg st' H)
    as (Ht & Hd & Hb & Hr & He & Hscheme & Hslash).
  unfold load_config in H.
  apply bind_Ret in H as (b & s1 & Hstat & H).
  rewrite path_exists_run in Hstat. inversion Hstat; subst s1. clear Hstat.
  apply bind_Ret in H as (u & s2 & Hguard & H).
  apply guard_Ret in Hguard as [_ ->].
  apply bind_Ret in H as (doc & s3 & Hread & H).
  apply read_json_Ret in Hread. cbn [fs trace] in Hread.
  rewrite <- app_assoc in Hread. subst s3.
  repeat (apply bind_Ret in H as (? & ? & Hl & H);
          first [apply lift_Ret in Hl as [_ ->]
                |apply guard_Ret in Hl as [_ ->]]).
  inversion H; subst cfg st'. cbn in *.
  repeat split; try done; try apply py_strip_trimmed.
  repeat constructor; try done; apply py_strip_trimmed.
Qed.

Lemma load_config_returns_valid_config_witness :
  exists cfg st',
    load_config Demo.env Demo.start = (Ret cfg, st')
    /\ Forall (fun x => x <> [] /\ trimmed x)
         [title (site cfg); description (site cfg); rss_url cfg;
          contact_email cfg]
    /\ base_url (site cfg) <> []
    /\ startswith (py "http://") (base_url (site cfg))
       || startswith (py "https://") (base_url (site cfg)) = true
    /\ endswith (py "/") (base_url (site cfg)) = false
    /\ trimmed (model (generation cfg))
    /\ st' = {| fs := fs Demo.start;
                trace := trace Demo.start
                  ++ [EvStat CONFIG_PATH; EvRead CONFIG_PATH] |}.
Proof.
  eexists _, _. split; [by vm_compute|].
  eapply (load_config_returns_valid_config Demo.env Demo.start).
  by vm_compute.
Defined.

(* ===================================================================== *)
(** ** What a completed run reports *)
(* ===================================================================== *)




(* ===================================================================== *)
(** ** Script and style elements *)
(* ===================================================================== *)

Lemma rmatch_star_lazy_chr p k s g :
  rmatch (Star false (Chr p)) s g k = lazy_run p k s g.
Proof. simpl. by apply star_lazy_chr. Qed.

Lemma take_app_sub (a x : pstring) :
  take (length (a ++ x) - length x) (a ++ x) = a.
Proof.
  rewrite length_app.
  replace (length a + length x - length x)%nat with (length a) by lia.
  apply take_app_length.
Qed.

(** A lazy run passes over the characters at which what follows cannot
    start. *)
Lemma lazy_any_skip (k : cont) g b rest :
  (forall c t, c ∈ b -> k (c :: t) g = None) ->
  lazy_run any k (b ++ rest) g = lazy_run any k rest g.
Proof.
  induction b as [|c b IH]; intros H; [done|].
  cbn [app lazy_run any]. rewrite H by apply list_elem_of_here.
  cbn [orelse]. apply IH. intros c' t Hc'. apply H. by right.
Qed.

Lemma match_at_found r s m rest g :
  rmatch r s [] (fun s' g' => Some (s', g')) = Some (rest, g) ->
  s = m ++ rest -> match_at r s = Some (m, g).
Proof. intros H ->. unfold match_at. by rewrite H, take_app_sub. Qed.

(** The end tag and what follows it. *)
Lemma script_close_match name k post :
  name = py "script" \/ name = py "style" ->
  rmatch (cat [lit 60; lit 47; Backref 1; Star true (Chr is_space); lit 62])
    (60 :: 47 :: name ++ 62 :: post) [(1%nat, name)] k
  = k post [(1%nat, name)].
Proof. by intros [->| ->]. Qed.

Lemma script_close_nomatch k c t g :
  c <> 60 ->
  rmatch (cat [lit 60; lit 47; Backref 1; Star true (Chr is_space); lit 62])
    (c :: t) g k
  = None.
Proof.
  intros Hc. cbn [cat foldr].
  change (rmatch (Seq ?a ?b) ?s ?g ?k) with
    (rmatch a s g (fun s1 g1 => rmatch b s1 g1 k)).
  unfold lit at 1. cbn [rmatch]. by destruct (Z.eqb_spec c 60).
Qed.

Lemma rmatch_Seq a b s g k :
  rmatch (Seq a b) s g k = rmatch a s g (fun s1 g1 => rmatch b s1 g1 k).
Proof. reflexivity. Qed.

(** The pattern after the name of the element. *)
Lemma script_tail_match name attrs body post :
  name = py "script" \/ name = py "style" ->
  62 ∉ attrs -> 60 ∉ body ->
  rmatch (cat [Star true (Chr not_gt); lit 62; Star false (Chr any);
               lit 60; lit 47; Backref 1; Star true (Chr is_space); lit 62])
    (attrs ++ 62 :: body ++ 60 :: 47 :: name ++ 62 :: post)
    [(1%nat, name)] (fun s' g' => Some (s', g'))
  = Some (post, [(1%nat, name)]).
Proof.
  intros Hname Hattrs Hbody.
  change (cat (?a :: ?l)) with (Seq a (cat l)).
  rewrite rmatch_Seq, rmatch_star_greedy_chr.
  etrans; [apply (greedy_not_gt_first
                    (fun s g => rmatch
                       (cat [Star false (Chr any); lit 60; lit 47; Backref 1;
                             Star true (Chr is_space); lit 62])
                       s g (fun s' g' => Some (s', g'))));
           exact Hattrs|].
  change (cat (?a :: ?l)) with (Seq a (cat l)).
  rewrite rmatch_Seq, rmatch_star_lazy_chr.
  rewrite lazy_any_skip.
  2:{ intros c t Hc. apply script_close_nomatch. by intros ->. }
  cbn [lazy_run]. by rewrite script_close_match.
Qed.

Lemma script_name_match name rest (k : cont) :
  name = py "script" \/ name = py "style" ->
  rmatch (Group 1 (Alt (word_i "script") (word_i "style"))) (name ++ rest) []
    k
  = k rest [(1%nat, name)].
Proof.
  intros Hname.
  change (rmatch (Group 1 ?r) ?s ?g k)
    with (orelse
            (rmatch (word_i "script") s g (fun s1 g1 =>
               k s1 ((1%nat, take (length s - length s1) s) :: g1)))
            (rmatch (word_i "style") s g (fun s1 g1 =>
               k s1 ((1%nat, take (length s - length s1) s) :: g1)))).
  destruct Hname as [-> | ->].
  - change (rmatch (word_i "script") (py "script" ++ rest) [] ?K)
      with (K rest []).
    change (rmatch (word_i "style") (py "script" ++ rest) [] ?K)
      with (@None (pstring * groups)).
    cbv beta. rewrite take_app_sub. apply orelse_None_r.
  - change (rmatch (word_i "script") (py "style" ++ rest) [] ?K)
      with (@None (pstring * groups)).
    change (rmatch (word_i "style") (py "style" ++ rest) [] ?K)
      with (K rest []).
    cbv beta. by rewrite take_app_sub.
Qed.

(** A script or style element whose content holds no [<] is matched as a
    whole. *)
Lemma script_element_match name attrs body post :
  name = py "script" \/ name = py "style" ->
  62 ∉ attrs -> 60 ∉ body ->
  match_at SCRIPT_STYLE_RE
    (60 :: name ++ attrs ++ 62 :: body ++ 60 :: 47 :: name ++ 62 :: post)
  = Some (60 :: name ++ attrs ++ 62 :: body ++ 60 :: 47 :: name ++ [62],
          [(1%nat, name)]).
Proof.
  intros Hname Hattrs Hbody.
  apply match_at_found with (rest := post).
  2:{ cbn [app]. f_equal. rewrite <- !app_assoc. cbn [app]. f_equal. f_equal.
      f_equal. rewrite <- !app_assoc. cbn [app]. f_equal. 
      by rewrite <- app_assoc. }
  unfold SCRIPT_STYLE_RE.
  change (cat (?a :: ?b :: ?l)) with (Seq a (Seq b (cat l))).
  rewrite rmatch_Seq.
  change (rmatch (lit 60) (60 :: ?s) ?g ?k) with (k s g). cbv beta.
  rewrite rmatch_Seq, script_name_match by done.
  by apply script_tail_match.
Qed.

Lemma sub_from_skip r repl (a b : pstring) :
  sub_from r repl (length a) (a ++ b) = sub_from r repl 0 b.
Proof.
  induction a as [|c a IH]; [done|]. exact IH.
Qed.

(** [re.sub] passes over the characters at which the pattern cannot
    start. *)
Lemma sub_from_pass r repl (pre s : pstring) :
  (forall c t, c ∈ pre -> match_at r (c :: t) = None) ->
  sub_from r repl 0 (pre ++ s) = pre ++ sub_from r repl 0 s.
Proof.
  induction pre as [|c pre IH]; intros H; [done|]. cbn [app].
  rewrite sub_from_nomatch by apply H, list_elem_of_here.
  rewrite IH; [done|]. intros c' t Hc'. apply H. by right.
Qed.

Lemma remove_script_element name attrs body pre post :
  name = py "script" \/ name = py "style" ->
  62 ∉ attrs -> 60 ∉ body -> 60 ∉ pre -> 60 ∉ post ->
  sub SCRIPT_STYLE_RE (const_repl [])
    (pre ++ 60 :: name ++ attrs ++ 62 :: body
         ++ 60 :: 47 :: name ++ 62 :: post)
  = pre ++ post.
Proof.
  intros Hname Hattrs Hbody Hpre Hpost. unfold sub.
  rewrite sub_from_pass.
  2:{ intros c t Hc. apply nomatch_not_lt. by intros ->. }
  f_equal.
  cbn [sub_from].
  rewrite script_element_match by done. unfold const_repl. cbn [app].
  replace (name ++ attrs ++ 62 :: body ++ 60 :: 47 :: name ++ 62 :: post)
    with ((name ++ attrs ++ 62 :: body ++ 60 :: 47 :: name ++ [62]) ++ post).
  2:{ rewrite <- !app_assoc. cbn [app]. do 3 f_equal.
      rewrite <- !app_assoc. cbn [app]. do 3 f_equal.
      by rewrite <- app_assoc. }
  replace (Nat.sub (length (60 :: name ++ attrs ++ 62 :: body
                               ++ 60 :: 47 :: name ++ [62])) 1)
    with (length (name ++ attrs ++ 62 :: body ++ 60 :: 47 :: name ++ [62]))
    by (cbn [length]; lia).
  rewrite sub_from_skip.
  apply (sub_no_match SCRIPT_STYLE_RE), search_no_lt, Hpost.
Qed.

(** X15: An ordinary script or style element is removed with all it holds:
    where the start tag is [<script] or [<style], attributes and [>], the
    end tag is [</script>] or [</style>], and neither the content nor the
    text around the element holds a [<], the sanitizer returns the text
    around the element, trimmed. *)
Theorem sanitize_removes_script_element
    (name attrs body pre post : pstring) :
  name = py "script" \/ name = py "style" ->
  62 ∉ attrs -> 60 ∉ body -> 60 ∉ pre -> 60 ∉ post ->
  sanitize (pre ++ py "<" ++ name ++ attrs ++ py ">" ++ body
                ++ py "</" ++ name ++ py ">" ++ post)
  = py_strip (pre ++ post).
Proof.
  intros Hname Hattrs Hbody Hpre Hpost. unfold sanitize, remove_script_style.
  change (pre ++ py "<" ++ name ++ attrs ++ py ">" ++ body
              ++ py "</" ++ name ++ py ">" ++ post)
    with (pre ++ 60 :: name ++ attrs ++ 62 :: body
              ++ 60 :: 47 :: name ++ 62 :: post).
  rewrite remove_script_element by done.
  apply (sub_no_match TAG_RE), search_no_lt.
  intros Hin. eapply elem_of_sublist in Hin; [|apply py_strip_sublist].
  apply elem_of_app in Hin as [?|?]; done.
Qed.

Lemma sanitize_removes_script_element_witness :
  sanitize (py "Intro <script type='text/javascript'>alert(1)</script> end ")
  = py "Intro  end".
Proof.
  apply (sanitize_removes_script_element (py "script")
           (py " type='text/javascript'") (py "alert(1)") (py "Intro ")
           (py " end "));
    [by left|..];
    vm_compute; intros H; apply list_elem_of_In in H; simpl in H;
    repeat destruct H as [H|H]; try discriminate H; done.
Defined.

(* ===================================================================== *)
(** ** Replies without text *)
(* ===================================================================== *)

(** X16: What the generator makes of the content of a well-formed reply with
    status 200: a string is trimmed and sanitized; [null] and every other
    falsy value ([false], [0], an empty list or object) count as the empty
    string, so the run goes on with the fallback paragraph; a content that
    is truthy and no string (a list of parts, a number) ends the run with
    exit code 3. *)
Theorem reply_content_cases (E : Env) (cfg : AppConfig) (item : Item)
    (st : state) (key text : pstring) (data c : pyval) :
  getenv E (py "DEEPSEEK_API_KEY") = Some key ->
  py_strip key <> [] ->
  (forall payload,
     requests_post E DEEPSEEK_URL (py_strip key) payload
     = HttpResponse 200 text) ->
  json_loads E text = Some data ->
  response_content data = Some c ->
  (generate_body_html E cfg item st).1
  = match c with
    | PStr s => Ret (body_of_response (py_strip s))
    | _ => if truthy c then Exit 3 else Ret FALLBACK_BODY
    end.
Proof.
  intros Hkey Hne Hpost Hjson Hc.
  unfold generate_body_html, deepseek_chat. rewrite Hkey. simpl default.
  rewrite bool_decide_eq_false_2 by done. rewrite Hpost.
  unfold mbind at 1 2 3 4 5 6, M_bind, bind, emit, ret, lift. simpl.
  rewrite Hjson. simpl. rewrite Hc. simpl.
  unfold content_text, py_or.
  destruct c as [|b|z|r|s|l|d]; simpl; try reflexivity.
  - by destruct b.
  - by destruct (z =? 0).
  - by destruct (bool_decide (r = py "0.0") || bool_decide (r = py "-0.0")).
  - destruct (bool_decide_reflect (s = [])) as [->|]; by simpl.
  - by destruct l.
  - by destruct d.
Qed.

Lemma reply_content_cases_witness :
  (generate_body_html null_content_env Demo.demo_cfg Demo.demo_item
     Demo.start).1
  = Ret FALLBACK_BODY.
Proof.
  apply (reply_content_cases null_content_env Demo.demo_cfg Demo.demo_item
           Demo.start (py "sk-test") (py "REPLY")
           (PDict [(py "choices",
                    PList [PDict [(py "message",
                                   PDict [(py "content", PNone)])]])])
           PNone);
    [reflexivity|by vm_compute|reflexivity|reflexivity|reflexivity].
Defined.

(* ===================================================================== *)
(** ** Allowed tags and their attributes *)
(* ===================================================================== *)

Lemma orelse_same (a : mresult) : orelse a a = a.
Proof. by destruct a. Qed.

(** A greedy run stops where the items end. *)
Lemma greedy_run_app p (k : cont) g a b :
  Forall (fun c => p c = true) a ->
  match b with c :: _ => p c = false | [] => True end ->
  is_Some (k b g) ->
  greedy_run p k (a ++ b) g = k b g.
Proof.
  intros Ha Hb [r Hr]. induction Ha as [|c a Hc Ha IH].
  - destruct b as [|c b]; [done|]. cbn [app greedy_run]. by rewrite Hb.
  - cbn [app greedy_run]. rewrite Hc, IH, Hr. done.
Qed.

(** A greedy run of [[^>]] before the continuation [k], which asks for a
    [>] first. *)
Lemma greedy_not_gt_stop (k : cont) g v w :
  (forall c t, c <> 62 -> k (c :: t) g = None) ->
  62 ∉ v ->
  greedy_run not_gt k (v ++ 62 :: w) g = k (62 :: w) g.
Proof.
  intros Hk. induction v as [|c t IH]; intros H; [reflexivity|].
  apply not_elem_of_cons in H as [Hc Ht].
  cbn [greedy_run app]. rewrite not_gt_true, IH, (Hk c) by done.
  apply orelse_None_r.
Qed.

Lemma greedy_run_cons p (k : cont) c t g :
  greedy_run p k (c :: t) g
  = if p c then orelse (greedy_run p k t g) (k (c :: t) g) else k (c :: t) g.
Proof. reflexivity. Qed.

(** White space, then [[^>]], then [k]: wherever the white space is taken
    to end, the match is the same. *)
Lemma greedy_space_not_gt (k : cont) g w :
  (forall c t, c <> 62 -> k (c :: t) g = None) ->
  forall v, 62 ∉ v ->
  greedy_run is_space (fun s g' => greedy_run not_gt k s g') (v ++ 62 :: w) g
  = k (62 :: w) g.
Proof.
  intros Hk. induction v as [|c t IH]; intros H.
  - cbn [app]. rewrite greedy_run_cons.
    replace (is_space 62) with false by done.
    by apply (greedy_not_gt_stop k g []).
  - pose proof H as H'. apply not_elem_of_cons in H' as [Hc Ht].
    change ((c :: t) ++ 62 :: w) with (c :: t ++ 62 :: w).
    rewrite greedy_run_cons.
    change (c :: t ++ 62 :: w) with ((c :: t) ++ 62 :: w).
    rewrite (greedy_not_gt_stop k g (c :: t)) by done.
    destruct (is_space c); [|done]. rewrite IH by done. apply orelse_same.
Qed.

Lemma backref_ci_suffix t : forall s s',
  backref_ci t s = Some s' -> exists w, s = w ++ s'.
Proof.
  induction t as [|a t IH]; intros [|b s] s' H; simpl in H; try done.
  - inversion H. by exists [].
  - inversion H. by exists [].
  - destruct (sre_lower a =? sre_lower b); [|done].
    apply IH in H as [w ->]. by exists (b :: w).
Qed.

Section DeadEnd.

(** Texts on which what follows cannot match; every tail of such a text is
    one. *)
Variable Q : pstring -> Prop.
Hypothesis Q_tail : forall c t, Q (c :: t) -> Q t.

Lemma Q_suffix w s : Q (w ++ s) -> Q s.
Proof. induction w as [|c w IH]; [done|]. intros H. by eapply IH, Q_tail. Qed.

(** Where the continuation fails on every such text, so does the match. *)
Lemma rmatch_dead_end r : forall s g (k : cont),
  Q s -> (forall s' g', Q s' -> k s' g' = None) -> rmatch r s g k = None.
Proof.
  induction r as [|p|r1 IH1 r2 IH2|r1 IH1 r2 IH2|gr r1 IH1|n r1 IH1|n];
    intros s g k Hs Hk; cbn [rmatch].
  - by apply Hk.
  - destruct s as [|c t]; [done|]. destruct (p c); [|done].
    eapply Hk, Q_tail, Hs.
  - apply IH1; [done|]. intros s1 g1 H1. by apply IH2.
  - by rewrite IH1, IH2.
  - generalize (length s). intros fuel. revert s g Hs.
    induction fuel as [|fuel IH]; intros s g Hs; cbn [star_loop].
    + by apply Hk.
    + rewrite (IH1 s g); [|done|].
      * rewrite (Hk s g Hs). by destruct gr.
      * intros s1 g1 H1. destruct (length s1 <? length s)%nat; [|done].
        by apply IH.
  - apply IH1; [done|]. intros s1 g1 H1. by apply Hk.
  - destruct (group n g) as [t|]; [|done].
    destruct (backref_ci t s) as [s1|] eqn:E; [|done].
    apply backref_ci_suffix in E as [w ->]. eapply Hk, Q_suffix, Hs.
Qed.

End DeadEnd.

(** The script pattern needs a second [<]. *)
Lemma script_needs_second_lt t :
  60 ∉ t -> match_at SCRIPT_STYLE_RE (60 :: t) = None.
Proof.
  intros Ht. unfold match_at, SCRIPT_STYLE_RE.
  change (cat (?a :: ?b :: ?c :: ?d :: ?e :: ?l))
    with (Seq a (Seq b (Seq c (Seq d (Seq e (cat l)))))).
  rewrite rmatch_Seq.
  change (rmatch (lit 60) (60 :: ?s) ?g ?k) with (k s g). cbv beta.
  assert (Htail : forall c u, 60 ∉ c :: u -> 60 ∉ u)
    by (intros c u H; by apply not_elem_of_cons in H as [_ ?]).
  rewrite rmatch_Seq.
  rewrite (rmatch_dead_end (fun s => 60 ∉ s) Htail); [done|done|].
  intros s1 g1 H1. rewrite rmatch_Seq.
  apply (rmatch_dead_end (fun s => 60 ∉ s) Htail); [done|].
  intros s2 g2 H2. rewrite rmatch_Seq.
  apply (rmatch_dead_end (fun s => 60 ∉ s) Htail); [done|].
  intros s3 g3 H3. rewrite rmatch_Seq.
  apply (rmatch_dead_end (fun s => 60 ∉ s) Htail); [done|].
  intros s4 g4 H4.
  change (cat (?a :: ?l)) with (Seq a (cat l)). rewrite rmatch_Seq.
  destruct s4 as [|c u]; [done|]. apply not_elem_of_cons in H4 as [Hc _].
  unfold lit at 1. cbn [rmatch]. by destruct (Z.eqb_spec c 60).
Qed.

Lemma rmatch_Alt r1 r2 s g k :
  rmatch (Alt r1 r2) s g k = orelse (rmatch r1 s g k) (rmatch r2 s g k).
Proof. reflexivity. Qed.

Lemma rmatch_Group n r s g k :
  rmatch (Group n r) s g k
  = rmatch r s g (fun s1 g1 =>
      k s1 ((n, take (length s - length s1) s) :: g1)).
Proof. reflexivity. Qed.

Lemma rmatch_Chr p c s g k :
  rmatch (Chr p) (c :: s) g k = if p c then k s g else None.
Proof. reflexivity. Qed.

Lemma greedy_run_ext p (k k' : cont) g :
  (forall s, k s g = k' s g) ->
  forall s, greedy_run p k s g = greedy_run p k' s g.
Proof.
  intros H. induction s as [|c t IH]; cbn [greedy_run]; [apply H|].
  by rewrite IH, H.
Qed.

(** The name of a tag: group 1 takes all of it. *)
Lemma tag_name_match n0 ntail rest g0 (k : cont) :
  alnum_i n0 = true ->
  Forall (fun c => alnum_i c = true) ntail ->
  match rest with c :: _ => alnum_i c = false | [] => True end ->
  is_Some (k rest ((1%nat, n0 :: ntail) :: g0)) ->
  rmatch (Group 1 (plus (Chr alnum_i))) (n0 :: ntail ++ rest) g0 k
  = k rest ((1%nat, n0 :: ntail) :: g0).
Proof.
  intros Hn0 Hn Hrest Hk. rewrite rmatch_Group. unfold plus.
  rewrite rmatch_Seq, rmatch_Chr, Hn0, rmatch_star_greedy_chr.
  change (n0 :: ntail ++ rest) with ((n0 :: ntail) ++ rest).
  rewrite greedy_run_app; [|done|done|]; by rewrite take_app_sub.
Qed.

(** The attributes of a tag, if any, and its [>]. *)
Lemma tag_rest_match attrs post g0 :
  (forall a, attrs = Some a -> 62 ∉ a) ->
  exists g,
    rmatch (cat [opt (Group 2 (Seq (plus (Chr is_space))
                                   (Star true (Chr not_gt))));
                 lit 62])
      (match attrs with Some a => 32 :: a | None => [] end ++ 62 :: post)
      g0 (fun s' g' => Some (s', g'))
    = Some (post, g ++ g0)
    /\ group 1 (g ++ g0) = group 1 g0.
Proof.
  intros Hattrs. destruct attrs as [a|]; [|by exists []].
  specialize (Hattrs a eq_refl).
  change (cat [?x; ?y]) with (Seq x (Seq y Eps)).
  rewrite rmatch_Seq. unfold opt. rewrite rmatch_Alt, rmatch_Group.
  unfold plus. rewrite !rmatch_Seq. cbn [app]. rewrite rmatch_Chr.
  replace (is_space 32) with true by done.
  rewrite rmatch_star_greedy_chr.
  erewrite greedy_run_ext; [|intros s; apply rmatch_star_greedy_chr].
  rewrite greedy_space_not_gt; [|intros c t Hc|done].
  - eexists [(2%nat, _)]. split; reflexivity.
  - unfold lit. cbn [rmatch]. by destruct (Z.eqb_spec c 62).
Qed.

Lemma plain_tag_match closing n0 ntail attrs post :
  alnum_i n0 = true ->
  Forall (fun c => alnum_i c = true) ntail ->
  (forall a, attrs = Some a -> 62 ∉ a) ->
  exists g,
    match_at TAG_RE (plain_tag closing (n0 :: ntail) attrs ++ post)
    = Some (plain_tag closing (n0 :: ntail) attrs, g)
    /\ group 1 g = Some (n0 :: ntail).
Proof.
  intros Hn0 Hn Hattrs.
  destruct (tag_rest_match attrs post [(1%nat, n0 :: ntail)] Hattrs)
    as (g & Hrest & Hg).
  exists (g ++ [(1%nat, n0 :: ntail)]). split; [|by rewrite Hg].
  apply match_at_found with (rest := post); [|reflexivity].
  unfold plain_tag. rewrite <- !app_assoc.
  change ([60] ++ ?s) with (60 :: s).
  change ([62] ++ ?s) with (62 :: s).
  unfold TAG_RE.
  change (cat (?a :: ?b :: ?c :: ?l)) with (Seq a (Seq b (Seq c (cat l)))).
  rewrite rmatch_Seq.
  change (rmatch (lit 60) (60 :: ?s) ?g ?k) with (k s g). cbv beta.
  assert (Hname :
    rmatch (Seq (Group 1 (plus (Chr alnum_i)))
              (cat [opt (Group 2 (Seq (plus (Chr is_space))
                                      (Star true (Chr not_gt))));
                    lit 62]))
      ((n0 :: ntail)
       ++ match attrs with Some a => 32 :: a | None => [] end ++ 62 :: post)
      [] (fun s' g' => Some (s', g'))
    = Some (post, g ++ [(1%nat, n0 :: ntail)])).
  { rewrite rmatch_Seq. cbn [app].
    rewrite tag_name_match;
      first [done | by destruct attrs | by rewrite Hrest]. }
  rewrite rmatch_Seq. unfold opt at 1. rewrite rmatch_Alt.
  destruct closing.
  - change ([47] ++ ?s) with (47 :: s).
    change (rmatch (lit 47) (47 :: ?s) ?g ?k) with (k s g). cbv beta.
    by rewrite Hname.
  - cbn [app]. unfold lit at 1. rewrite rmatch_Chr.
    destruct (Z.eqb_spec n0 47) as [->|_]; [done|]. exact Hname.
Qed.

Lemma lstrip_app_stop pre c r :
  is_space c = false -> lstrip (pre ++ c :: r) = lstrip pre ++ c :: r.
Proof.
  intros Hc. induction pre as [|d pre IH]; cbn [app lstrip].
  - by rewrite Hc.
  - by destruct (is_space d).
Qed.

Lemma rstrip_app_stop r c post :
  is_space c = false -> rstrip (r ++ c :: post) = r ++ c :: rstrip post.
Proof.
  intros Hc. unfold rstrip. rewrite rev_app_distr. cbn [rev].
  rewrite <- app_assoc. cbn [app]. rewrite lstrip_app_stop by done.
  rewrite rev_app_distr. cbn [rev]. rewrite rev_involutive.
  by rewrite <- app_assoc.
Qed.

(** Trimming text around a tag trims the text, not the tag. *)
Lemma py_strip_around pre mid post :
  py_strip (pre ++ (60 :: mid ++ [62]) ++ post)
  = lstrip pre ++ (60 :: mid ++ [62]) ++ rstrip post.
Proof.
  unfold py_strip. cbn [app]. rewrite lstrip_app_stop by done.
  rewrite <- !app_assoc. cbn [app].
  replace (lstrip pre ++ 60 :: mid ++ 62 :: post)
    with ((lstrip pre ++ 60 :: mid) ++ 62 :: post)
    by (by rewrite <- app_assoc).
  rewrite rstrip_app_stop by done. by rewrite <- app_assoc.
Qed.

Lemma alnum_not_lt name :
  Forall (fun c => alnum_i c = true) name -> 60 ∉ name.
Proof.
  intros H Hin. rewrite Forall_forall in H. by apply H in Hin.
Qed.

Lemma plain_tag_shape closing name attrs :
  Forall (fun c => alnum_i c = true) name ->
  (forall a, attrs = Some a -> 60 ∉ a) ->
  exists mid, plain_tag closing name attrs = 60 :: mid ++ [62] /\ 60 ∉ mid.
Proof.
  intros Hname Hattrs. unfold plain_tag.
  exists ((if closing then [47] else []) ++ name
          ++ match attrs with Some a => 32 :: a | None => [] end).
  split; [by rewrite <- !app_assoc|].
  apply alnum_not_lt in Hname.
  rewrite !not_elem_of_app. split.
  { destruct closing; [|apply not_elem_of_nil].
    apply not_elem_of_cons. split; [done|apply not_elem_of_nil]. }
  split; [done|]. destruct attrs as [a|]; [|apply not_elem_of_nil].
  apply not_elem_of_cons. split; [done|by apply Hattrs].
Qed.

Lemma script_search_one_lt pre t :
  60 ∉ pre -> 60 ∉ t -> search SCRIPT_STYLE_RE (pre ++ 60 :: t) = None.
Proof.
  intros Hpre Ht. induction pre as [|c pre IH]; cbn [app search].
  - rewrite script_needs_second_lt by done.
    by apply (search_no_lt _ t).
  - apply not_elem_of_cons in Hpre as [Hc Hpre].
    rewrite (nomatch_not_lt _ c _ (not_eq_sym Hc)
             : match_at SCRIPT_STYLE_RE (c :: pre ++ 60 :: t) = None).
    by apply IH.
Qed.

(** [re.sub] with the tag pattern on text that holds one ordinary tag. *)
Lemma sub_plain_tag closing name attrs pre post :
  name <> [] ->
  Forall (fun c => alnum_i c = true) name ->
  (forall a, attrs = Some a -> 62 ∉ a) ->
  60 ∉ pre -> 60 ∉ post ->
  sub TAG_RE _strip_disallowed (pre ++ plain_tag closing name attrs ++ post)
  = pre ++ (if bool_decide (py_lower name ∈ allowed)
            then plain_tag closing name attrs else [])
        ++ post.
Proof.
  intros Hne Hname Hattrs Hpre Hpost. unfold sub.
  rewrite sub_from_pass.
  2:{ intros c t Hc. apply nomatch_not_lt. by intros ->. }
  f_equal. destruct name as [|n0 ntail]; [done|].
  apply Forall_cons in Hname as [Hn0 Hn].
  destruct (plain_tag_match closing n0 ntail attrs post Hn0 Hn Hattrs)
    as (g & Hmatch & Hg).
  remember (plain_tag closing (n0 :: ntail) attrs) as tag eqn:Htag.
  assert (Hshape : exists m, tag = 60 :: m)
    by (subst tag; unfold plain_tag; by eexists).
  destruct Hshape as [m ->]. cbn [app sub_from]. cbn [app] in Hmatch.
  rewrite Hmatch.
  replace (Nat.sub (length (60 :: m)) 1) with (length m)
    by (cbn [length]; lia).
  rewrite sub_from_skip.
  change (sub_from TAG_RE ?f 0 post) with (sub TAG_RE f post).
  rewrite (sub_no_match TAG_RE _ post (search_no_lt _ post Hpost)).
  unfold _strip_disallowed. rewrite Hg. cbn [default]. done.
Qed.

(** X17: What the sanitizer makes of one ordinary tag in text that holds no
    other [<]: a start or end tag, with or without attributes, whose name
    lower-cases to an allowed name is kept as it stands, with every
    attribute; any other tag is deleted.  The text is trimmed before the
    tag is looked at, so white space next to a deleted tag stays. *)
Theorem sanitize_plain_tag (closing : bool) (name : pstring)
    (attrs : option pstring) (pre post : pstring) :
  name <> [] ->
  Forall (fun c => alnum_i c = true) name ->
  (forall a, attrs = Some a -> (60 ∉ a) /\ (62 ∉ a)) ->
  60 ∉ pre -> 60 ∉ post ->
  sanitize (pre ++ plain_tag closing name attrs ++ post)
  = if bool_decide (py_lower name ∈ allowed)
    then py_strip (pre ++ plain_tag closing name attrs ++ post)
    else lstrip pre ++ rstrip post.
Proof.
  intros Hne Hname Hattrs Hpre Hpost. unfold sanitize, remove_script_style.
  destruct (plain_tag_shape closing name attrs Hname) as (mid & Htag & Hmid);
    [intros a Ha; by apply Hattrs|].
  rewrite (sub_no_match SCRIPT_STYLE_RE).
  2:{ rewrite Htag. cbn [app]. apply script_search_one_lt; [done|].
      rewrite <- app_assoc, !not_elem_of_app. split; [done|].
      split; [|done]. apply not_elem_of_cons. split; [done|].
      apply not_elem_of_nil. }
  rewrite Htag, py_strip_around, <- Htag.
  rewrite sub_plain_tag; try done.
  - by destruct (bool_decide (py_lower name ∈ allowed)).
  - intros a Ha. by apply Hattrs.
  - intros Hin. apply Hpre. eapply elem_of_sublist; [exact Hin|].
    apply lstrip_sublist.
  - intros Hin. apply Hpost. eapply elem_of_sublist; [exact Hin|].
    apply rstrip_sublist.
Qed.

(** A link with an event handler is kept as it is; a [div] is deleted and
    the space before it stays. *)
Lemma sanitize_plain_tag_witness :
  sanitize (py "see <a href='javascript:x()' onclick='y()'>")
  = py "see <a href='javascript:x()' onclick='y()'>"
  /\ sanitize (py "text <div class='x'>") = py "text ".
Proof.
  split.
  - apply (sanitize_plain_tag false (py "a")
             (Some (py "href='javascript:x()' onclick='y()'")) (py "see ")
             []);
      [done|by repeat constructor| | |apply not_elem_of_nil].
    + intros a [= <-]. split; vm_compute; intros H;
        apply list_elem_of_In in H; simpl in H;
        repeat destruct H as [H|H]; try discriminate H; done.
    + vm_compute; intros H; apply list_elem_of_In in H; simpl in H;
        repeat destruct H as [H|H]; try discriminate H; done.
  - apply (sanitize_plain_tag false (py "div") (Some (py "class='x'"))
             (py "text ") []);
      [done|by repeat constructor| | |apply not_elem_of_nil].
    + intros a [= <-]. split; vm_compute; intros H;
        apply list_elem_of_In in H; simpl in H;
        repeat destruct H as [H|H]; try discriminate H; done.
    + vm_compute; intros H; apply list_elem_of_In in H; simpl in H;
        repeat destruct H as [H|H]; try discriminate H; done.
Defined.

(* ===================================================================== *)
(** ** Defaults of the generation settings *)
(* ===================================================================== *)

(** X18: A configuration without generation settings - the entry is absent,
    [null] or an empty object - loads with the model [deepseek-chat], the
    temperature 0.7 and 2200 for [max_tokens]. *)
Theorem load_config_generation_defaults (E : Env) (st : state)
    (text : pstring) (d : list (pstring * pyval)) (cfg : AppConfig)
    (st' : state) :
  fs st !! CONFIG_PATH = Some (File text) ->
  json_loads E text = Some (PDict d) ->
  truthy (dict_get d (py "generation")) = false ->
  load_config E st = (Ret cfg, st') ->
  generation cfg
  = {| model := py "deepseek-chat"; temperature := py "0.7";
       max_tokens := 2200 |}.
Proof.
  intros Hfile Hjson Hgen H. unfold load_config in H.
  apply bind_Ret in H as (b & s1 & Hstat & H).
  rewrite path_exists_run in Hstat. inversion Hstat; subst s1. clear Hstat.
  apply bind_Ret in H as (u & s2 & Hguard & H).
  apply guard_Ret in Hguard as [_ ->].
  apply bind_Ret in H as (doc & s3 & Hread & H).
  erewrite read_json_run in Hread by (cbn [fs]; eassumption).
  inversion Hread; subst doc s3. clear Hread.
  apply bind_Ret in H as (site_v & ? & _ & H).
  apply bind_Ret in H as (title_v & ? & _ & H).
  apply bind_Ret in H as (desc_v & ? & _ & H).
  apply bind_Ret in H as (base_v & ? & _ & H).
  apply bind_Ret in H as (rss_v & ? & _ & H).
  apply bind_Ret in H as (gen_v & ? & Hgen_v & H).
  apply lift_Ret in Hgen_v as [Hgen_v _]. inversion Hgen_v; subst gen_v.
  unfold py_or in H. rewrite Hgen in H.
  apply bind_Ret in H as (model_v & ? & Hmodel & H).
  apply lift_Ret in Hmodel as [Hmodel _]. inversion Hmodel; subst model_v.
  apply bind_Ret in H as (temp_v & ? & Htemp_v & H).
  apply lift_Ret in Htemp_v as [Htemp_v _]. inversion Htemp_v; subst temp_v.
  apply bind_Ret in H as (temp & ? & Htemp & H).
  apply lift_Ret in Htemp as [Htemp _]. inversion Htemp; subst temp.
  apply bind_Ret in H as (max_v & ? & Hmax_v & H).
  apply lift_Ret in Hmax_v as [Hmax_v _]. inversion Hmax_v; subst max_v.
  apply bind_Ret in H as (maxt & ? & Hmax & H).
  apply lift_Ret in Hmax as [Hmax _]. inversion Hmax; subst maxt.
  apply bind_Ret in H as (email_v & ? & _ & H).
  apply bind_Ret in H as (? & ? & _ & H).
  apply bind_Ret in H as (? & ? & _ & H).
  inversion H; subst cfg. reflexivity.
Qed.

(** The configuration of the end-to-end run has an empty [generation]. *)
Lemma load_config_generation_defaults_witness :
  (load_config Demo.env Demo.start).1 = Ret Demo.demo_cfg
  /\ generation Demo.demo_cfg
     = {| model := py "deepseek-chat"; temperature := py "0.7";
          max_tokens := 2200 |}.
Proof.
  split; [by vm_compute|].
  apply (load_config_generation_defaults Demo.env Demo.start (py "CONFIG")
           (match Demo.config_doc with PDict d => d | _ => [] end)
           Demo.demo_cfg (load_config Demo.env Demo.start).2);
    by vm_compute.
Defined.
